(** * Session orchestrator of the multimodal live console

    A shallow embedding of [src/hooks/use-live-api.ts] (the [useLiveAPI]
    hook) and of the tool-call handler of
    [src/components/altair/Altair.tsx], with the properties of the
    turn-aggregation and tool-response logic.

    Conventions of the embedding.
    - A JavaScript string is a [string]; its characters are read as code
      units in the range 0..255.
    - React state ([useState]) and refs ([useRef]) are fields of a record
      that every handler takes and returns.  A ref is written at once.  A
      state update takes effect at the render that React makes after the
      handler has returned; one action of a run is one task, rendered
      before the next action.  An updater function ([setX(prev => ...)])
      is run by React either at the call of the setter, when the component
      has no update pending from an earlier render, or at that render;
      the field [eager] tells which.
    - Calls on collaborators that live outside the hook (the protocol
      client, the audio streamer, timers) are returned as a list of
      effects, in program order. *)

From Stdlib Require Import List String Ascii Bool Arith Lia QArith.
Import ListNotations.

Local Close Scope Q_scope.
Local Open Scope list_scope.
Local Open Scope string_scope.

(** ** JavaScript strings *)

Module JS.

(** [WhiteSpace] and [LineTerminator] of ECMAScript among the code units
    0..255: TAB, LF, VT, FF, CR, SP and NBSP.  These are the characters that
    [String.prototype.trim] strips. *)
Definition isWhiteSpace (c : ascii) : bool :=
  let n := nat_of_ascii c in
  (Nat.leb 9 n && Nat.leb n 13) || Nat.eqb n 32 || Nat.eqb n 160.

Fixpoint trimStart (s : string) : string :=
  match s with
  | EmptyString => EmptyString
  | String c s' => if isWhiteSpace c then trimStart s' else s
  end.

Fixpoint trimEnd (s : string) : string :=
  match s with
  | EmptyString => EmptyString
  | String c s' =>
      match trimEnd s' with
      | EmptyString => if isWhiteSpace c then EmptyString else String c EmptyString
      | t => String c t
      end
  end.

(** [s.trim()] *)
Definition trim (s : string) : string := trimEnd (trimStart s).

(** Truthiness of a string value: every string but the empty one. *)
Definition truthy (s : string) : bool :=
  match s with
  | EmptyString => false
  | String _ _ => true
  end.

(** [xs.join(sep)] on an array of strings. *)
Fixpoint join (sep : string) (xs : list string) : string :=
  match xs with
  | [] => ""
  | [x] => x
  | x :: rest => x ++ sep ++ join sep rest
  end.

(** A string made of white space only (the empty string included). *)
Fixpoint blank (s : string) : bool :=
  match s with
  | EmptyString => true
  | String c s' => isWhiteSpace c && blank s'
  end.

(** The first character of [s], when there is one, is not white space. *)
Definition headOk (s : string) : bool :=
  match s with
  | EmptyString => true
  | String c _ => negb (isWhiteSpace c)
  end.

End JS.

(** ** Data carried by the events *)

(** Types of the [@google/generative-ai] package that the code uses. *)
Module GenAI.

(** A [Part]; only its [text] field is read.  [None] stands for a part of
    another kind, whose [text] is [undefined]. *)
Record Part := { text : option string }.

(** A [Content]: [parts: Part[]]. *)
Record Content := { parts : list Part }.

Record FunctionDeclaration := {
  name : string;
  description : string;
  required : list string
}.

End GenAI.

Import GenAI.

Inductive Tool :=
| GoogleSearch
| FunctionDeclarations (ds : list FunctionDeclaration).

(** [LiveConfig], with the fields the repository sets. *)
Record LiveConfig := {
  model : string;
  responseModalities : option string;
  systemInstruction : option Content;
  tools : list Tool
}.

(** The argument of a [content] event.  The handler is written against
    [any], and guards both [modelTurn] and its [parts]. *)
Record ModelTurn := { mtParts : option (list Part) }.
Record ServerContent := { modelTurn : option ModelTurn }.

(** The argument of a [clientContent] event. *)
Record ClientContent := { turns : option (list Content) }.
Record ClientContentMessage := { clientContent : option ClientContent }.

(** ** The hook [useLiveAPI] *)

Module LiveAPI.

Record State := {
  connected : bool;
  config : option LiveConfig;          (* [None]: a falsy value *)
  volume : Q;
  textResponses : list string;
  userMessages : list string;
  currentResponse : string;            (* [currentResponseRef.current] *)
  audioStreamer : bool;                (* [audioStreamerRef.current] is set *)
  eager : bool                         (* React runs the next updater at the call *)
}.

(** Calls made on the protocol client and on the audio streamer. *)
Inductive Effect :=
| ClientDisconnect
| ClientConnect (c : LiveConfig)
| StreamerStop
| StreamerAddPCM16 (data : list Byte.byte).

(** How the promise of [client.connect] settles. *)
Inductive Settled :=
| Resolved
| Rejected (reason : string).

(** What running a handler or an operation gives: the next state, the calls
    made on collaborators, and the error thrown, if any. *)
Record Outcome := {
  next : State;
  effects : list Effect;
  thrown : option string
}.

Definition ret (st : State) : Outcome :=
  {| next := st; effects := []; thrown := None |}.

(** The state of the first render. *)
Definition defaultConfig : LiveConfig :=
  {| model := "models/gemini-2.0-flash-exp";
     responseModalities := None;
     systemInstruction := None;
     tools := [] |}.

Definition init : State :=
  {| connected := false;
     config := Some defaultConfig;
     volume := 0%Q;
     textResponses := [];
     userMessages := [];
     currentResponse := "";
     audioStreamer := false;
     eager := true |}.

(** State setters. *)
Definition setConnected (b : bool) (st : State) : State :=
  {| connected := b; config := config st; volume := volume st;
     textResponses := textResponses st; userMessages := userMessages st;
     currentResponse := currentResponse st; audioStreamer := audioStreamer st;
     eager := eager st |}.

Definition setConfig (c : option LiveConfig) (st : State) : State :=
  {| connected := connected st; config := c; volume := volume st;
     textResponses := textResponses st; userMessages := userMessages st;
     currentResponse := currentResponse st; audioStreamer := audioStreamer st;
     eager := eager st |}.

Definition setVolume (v : Q) (st : State) : State :=
  {| connected := connected st; config := config st; volume := v;
     textResponses := textResponses st; userMessages := userMessages st;
     currentResponse := currentResponse st; audioStreamer := audioStreamer st;
     eager := eager st |}.

Definition setTextResponses (f : list string -> list string) (st : State) : State :=
  {| connected := connected st; config := config st; volume := volume st;
     textResponses := f (textResponses st); userMessages := userMessages st;
     currentResponse := currentResponse st; audioStreamer := audioStreamer st;
     eager := eager st |}.

Definition setUserMessages (f : list string -> list string) (st : State) : State :=
  {| connected := connected st; config := config st; volume := volume st;
     textResponses := textResponses st; userMessages := f (userMessages st);
     currentResponse := currentResponse st; audioStreamer := audioStreamer st;
     eager := eager st |}.

Definition setCurrentResponse (s : string) (st : State) : State :=
  {| connected := connected st; config := config st; volume := volume st;
     textResponses := textResponses st; userMessages := userMessages st;
     currentResponse := s; audioStreamer := audioStreamer st;
     eager := eager st |}.

Definition setAudioStreamer (b : bool) (st : State) : State :=
  {| connected := connected st; config := config st; volume := volume st;
     textResponses := textResponses st; userMessages := userMessages st;
     currentResponse := currentResponse st; audioStreamer := b;
     eager := eager st |}.

Definition setEager (b : bool) (st : State) : State :=
  {| connected := connected st; config := config st; volume := volume st;
     textResponses := textResponses st; userMessages := userMessages st;
     currentResponse := currentResponse st; audioStreamer := audioStreamer st;
     eager := b |}.

(** The render that follows a state update made with a value, [st] being
    the state with that value in place.  [same] tells whether the value is
    the one the state held already.  React marks the component as having
    an update pending when an update is queued and clears the mark only at
    a render that finds every state unchanged; while the mark is there the
    next updater is queued, not run at the call.  So after an update that
    changed a state the next updater is deferred, and after one that
    changed nothing it is run at the call. *)
Definition afterUpdate (same : bool) (st : State) : State := setEager same st.

(** [(p) => p.text] as a filter predicate. *)
Definition hasText (p : Part) : bool :=
  match text p with
  | Some s => JS.truthy s
  | None => false
  end.

(** [(p) => p.text] as a mapped function; [join] prints [undefined] as the
    empty string. *)
Definition textOf (p : Part) : string :=
  match text p with
  | Some s => s
  | None => ""
  end.

(** [ps.filter((p) => p.text).map((p) => p.text).join(" ")] *)
Definition joinedText (ps : list Part) : string :=
  JS.join " " (map textOf (filter hasText ps)).

Definition onClose (st : State) : State :=
  afterUpdate (Bool.eqb (connected st) false) (setConnected false st).

Definition stopAudioStreamer (st : State) : Outcome :=
  {| next := st;
     effects := if audioStreamer st then [StreamerStop] else [];
     thrown := None |}.

Definition onAudio (data : list Byte.byte) (st : State) : Outcome :=
  {| next := st;
     effects := if audioStreamer st then [StreamerAddPCM16 data] else [];
     thrown := None |}.

Definition onServerContent (content : ServerContent) (st : State) : State :=
  match modelTurn content with
  | Some mt =>
      match mtParts mt with
      | Some ps =>
          let textParts := joinedText ps in
          if JS.truthy (JS.trim textParts)
          then setCurrentResponse (currentResponse st ++ textParts) st
          else st
      | None => st
      end
  | None => st
  end.

(** What React holds of a [setTextResponses] call until it has rendered. *)
Inductive TextUpdate :=
| NoUpdate                          (* the setter was not called *)
| Computed (value : list string)    (* the updater was run at the call *)
| Deferred.                         (* the updater is queued for the render *)

(** The handler itself, up to its return.  The updater
    [prev => [...prev, currentResponseRef.current.trim()]] reads the ref
    when it is run: at the call when React is [eager], where the ref still
    holds the text, and otherwise at the render, after the reset of the
    ref on the next line. *)
Definition onTurnCompleteCall (st : State) : State * TextUpdate :=
  if JS.truthy (JS.trim (currentResponse st))
  then
    let update :=
      if eager st
      then Computed (textResponses st ++ [JS.trim (currentResponse st)])%list
      else Deferred in
    (setCurrentResponse "" st, update)
  else (st, NoUpdate).

(** The render of the update; a deferred updater reads the ref as it is at
    that time. *)
Definition renderTextResponses (u : TextUpdate) (st : State) : State :=
  match u with
  | NoUpdate => st
  | Computed value =>
      afterUpdate false (setTextResponses (fun _ => value) st)
  | Deferred =>
      afterUpdate false
        (setTextResponses
           (fun prev => (prev ++ [JS.trim (currentResponse st)])%list) st)
  end.

(** A [turncomplete] event in a task of its own: the handler, then the
    render. *)
Definition onTurnComplete (st : State) : State :=
  let '(st1, u) := onTurnCompleteCall st in
  renderTextResponses u st1.

Definition onClientContent (message : ClientContentMessage) (st : State) : State :=
  match clientContent message with
  | Some cc =>
      match turns cc with
      | Some ts =>
          let userText :=
            JS.join " " (map (fun turn => joinedText (parts turn)) ts) in
          if JS.truthy (JS.trim userText)
          then
            afterUpdate false
              (setUserMessages (fun prev => (prev ++ [userText])%list) st)
          else st
      | None => st
      end
  | None => st
  end.

(** [connect()], with the settlement of the awaited [client.connect]. *)
Definition connect (settled : Settled) (st : State) : Outcome :=
  match config st with
  | None =>
      {| next := st; effects := []; thrown := Some "config has not been set" |}
  | Some c =>
      match settled with
      | Resolved =>
          {| next :=
               afterUpdate (Bool.eqb (connected st) true) (setConnected true st);
             effects := [ClientDisconnect; ClientConnect c];
             thrown := None |}
      | Rejected reason =>
          {| next := st;
             effects := [ClientDisconnect; ClientConnect c];
             thrown := Some reason |}
      end
  end.

Definition disconnect (st : State) : Outcome :=
  {| next := afterUpdate (Bool.eqb (connected st) false) (setConnected false st);
     effects := [ClientDisconnect];
     thrown := None |}.

(** Everything that can happen to the hook: the six subscribed events, the
    three operations it returns, and the two callbacks of its audio set-up.
    [SetConfig] is given an object other than the one the state holds, as
    the Altair component does. *)
Inductive Action :=
| Close
| Interrupted
| Audio (data : list Byte.byte)
| ContentEv (content : ServerContent)
| TurnComplete
| ClientContentEv (message : ClientContentMessage)
| SetConfig (c : option LiveConfig)
| Connect (settled : Settled)
| Disconnect
| StreamerReady
| VolumeReport (v : Q).

Definition step (a : Action) (st : State) : Outcome :=
  match a with
  | Close => ret (onClose st)
  | Interrupted => stopAudioStreamer st
  | Audio data => onAudio data st
  | ContentEv content => ret (onServerContent content st)
  | TurnComplete => ret (onTurnComplete st)
  | ClientContentEv message => ret (onClientContent message st)
  | SetConfig c => ret (afterUpdate false (setConfig c st))
  | Connect settled => connect settled st
  | Disconnect => disconnect st
  | StreamerReady => ret (setAudioStreamer true st)
  | VolumeReport v => ret (afterUpdate (Qeq_bool (volume st) v) (setVolume v st))
  end.

(** The state after a sequence of actions, in arrival order. *)
Definition run (acts : list Action) (st : State) : State :=
  fold_left (fun s a => next (step a s)) acts st.

(** A [content] event carrying the given text parts. *)
Definition contentOf (texts : list string) : ServerContent :=
  {| modelTurn :=
       Some {| mtParts := Some (map (fun s => {| text := Some s |}) texts) |} |}.

(** A turn carrying the given text parts. *)
Definition turnOf (texts : list string) : Content :=
  {| parts := map (fun s => {| text := Some s |}) texts |}.

(** A [clientContent] event carrying the given turns. *)
Definition clientContentOf (ts : list Content) : ClientContentMessage :=
  {| clientContent := Some {| turns := Some ts |} |}.

End LiveAPI.

(** ** The tool-call handler of the Altair component *)

(** [LiveFunctionCall]: a [FunctionCall] with an [id]. *)
Module FC.

(** [fc.args], of which the handler reads [json_graph]; [None] when the
    object has no such field. *)
Record Args := { json_graph : option string }.

Record t := {
  name : string;
  args : Args;
  id : string
}.

End FC.

(** [LiveFunctionResponse] *)
Module FR.

Record Output := { success : bool }.
Record Response := { output : Output }.

Record t := {
  response : Response;
  id : string
}.

End FR.

Record ToolCall := { functionCalls : list FC.t }.
Record ToolResponseMessage := { functionResponses : list FR.t }.

Module Altair.

Definition declaration : FunctionDeclaration :=
  {| GenAI.name := "render_altair";
     GenAI.description := "Displays an altair graph in json format.";
     GenAI.required := ["json_graph"] |}.

(** The configuration the component installs with [setConfig]. *)
Definition altairConfig : LiveConfig :=
  {| model := "models/gemini-2.0-flash-exp";
     responseModalities := Some "text";
     systemInstruction :=
       Some {| parts :=
         [ {| text := Some "You are an expert translator. You will repeat back the text that I speak without any mistakes or alterations." |} ] |};
     tools := [GoogleSearch; FunctionDeclarations [declaration]] |}.

(** [jsonString]; [None] is [undefined]. *)
Record State := { jsonString : option string }.

Definition init : State := {| jsonString := Some "" |}.

(** What the handler does besides returning: it calls the state setter that
    stands for the handler of the declaration, and it arms a timer whose
    callback calls [client.sendToolResponse]. *)
Inductive Effect :=
| SetJSONString (str : option string)
| SetTimeout (callback : ToolResponseMessage) (ms : nat).

Definition matchesDeclaration (fc : FC.t) : bool :=
  String.eqb (FC.name fc) (GenAI.name declaration).

Definition successResponse (fc : FC.t) : FR.t :=
  {| FR.response := {| FR.output := {| FR.success := true |} |};
     FR.id := FC.id fc |}.

Definition onToolCall (toolCall : ToolCall) (st : State) : State * list Effect :=
  let fc := find matchesDeclaration (functionCalls toolCall) in
  let '(st1, e1) :=
    match fc with
    | Some fc =>
        let str := FC.json_graph (FC.args fc) in
        ({| jsonString := str |}, [SetJSONString str])
    | None => (st, [])
    end in
  let e2 :=
    if Nat.eqb (List.length (functionCalls toolCall)) 0
    then []
    else
      [SetTimeout
         {| functionResponses := map successResponse (functionCalls toolCall) |}
         200] in
  (st1, (e1 ++ e2)%list).

(** The arguments the handler of the declaration was invoked with. *)
Fixpoint handlerCalls (es : list Effect) : list (option string) :=
  match es with
  | [] => []
  | SetJSONString str :: rest => str :: handlerCalls rest
  | SetTimeout _ _ :: rest => handlerCalls rest
  end.

(** The [client.sendToolResponse] calls made once the armed timers have
    fired, in the order they were armed. *)
Fixpoint sendToolResponseCalls (es : list Effect) : list ToolResponseMessage :=
  match es with
  | [] => []
  | SetJSONString _ :: rest => sendToolResponseCalls rest
  | SetTimeout callback _ :: rest => callback :: sendToolResponseCalls rest
  end.

End Altair.

(** ** The properties as the specification words them *)

Module Spec.

Import LiveAPI.

(** The text fragments of a list of parts: the parts that carry text. *)
Definition fragmentsOfParts (ps : list Part) : list string :=
  map textOf (filter hasText ps).

(** The text fragments of one [content] event. *)
Definition fragmentsOfContent (content : ServerContent) : list string :=
  match modelTurn content with
  | Some mt =>
      match mtParts mt with
      | Some ps => fragmentsOfParts ps
      | None => []
      end
  | None => []
  end.

(** "The trimmed, single-space-joined concatenation of all text fragments
    seen since the last finalization". *)
Definition turnText (contents : list ServerContent) : string :=
  JS.trim (JS.join " " (flat_map fragmentsOfContent contents)).

(** "The text fragments of all turns joined by single spaces and then
    trimmed". *)
Definition userText (ts : list Content) : string :=
  JS.trim (JS.join " " (flat_map (fun turn => fragmentsOfParts (parts turn)) ts)).

(** "Each function invocation whose name matches a registered declaration
    has the associated handler invoked with that invocation's arguments". *)
Definition handlerCalls (toolCall : ToolCall) : list (option string) :=
  map (fun fc => FC.json_graph (FC.args fc))
      (filter Altair.matchesDeclaration (functionCalls toolCall)).

End Spec.

(** ** Notions used to state the properties *)

Module Props.

Import LiveAPI.

(** The single-space-joined text fragments of one [content] event. *)
Definition eventText (content : ServerContent) : string :=
  JS.join " " (Spec.fragmentsOfContent content).

(** What one [content] event adds to the accumulator: its joined text,
    unless that text is white space only. *)
Definition chunk (content : ServerContent) : string :=
  if JS.blank (eventText content) then "" else eventText content.

(** The chunks of a sequence of [content] events, one after the other with
    nothing in between. *)
Definition streamText (contents : list ServerContent) : string :=
  fold_right append "" (map chunk contents).

(** The text of a [clientContent] event: parts joined by a space within a
    turn, turns joined by a space. *)
Definition turnsText (ts : list Content) : string :=
  JS.join " " (map (fun turn => JS.join " " (Spec.fragmentsOfParts (parts turn))) ts).

(** An accumulator made of white space only is empty. *)
Definition AccOk (s : string) : Prop := JS.blank s = true -> s = "".

(** The entries of the two histories are well formed. *)
Definition TurnsOk (st : State) : Prop :=
  Forall (fun s => s <> "" /\ JS.trim s = s) (textResponses st) /\
  Forall (fun s => JS.trim s <> "") (userMessages st).

(** [l'] is [l] with entries appended. *)
Definition Extends {A : Type} (l l' : list A) : Prop :=
  exists k, l' = (l ++ k)%list.

Definition isSetConfig (a : Action) : bool :=
  match a with
  | SetConfig _ => true
  | _ => false
  end.

(** The state in which [currentResponseRef.current] is [s]. *)
Definition withAccumulator (s : string) : State := setCurrentResponse s init.

(** Concrete inputs used below. *)

Definition helloWorldTight : list ServerContent :=
  [contentOf ["Hello"]; contentOf ["world"]].

Definition helloWorldSpaced : list ServerContent :=
  [contentOf ["Hello"]; contentOf [" world"]].

Definition paddedHi : list Content := [turnOf [" Hi "]].

Definition helloAfterConnect : list Action :=
  [Connect Resolved; ContentEv (contentOf ["Hello"]); TurnComplete].

Definition graphCall (graph id : string) : FC.t :=
  {| FC.name := "render_altair";
     FC.args := {| FC.json_graph := Some graph |};
     FC.id := id |}.

Definition otherCall (id : string) : FC.t :=
  {| FC.name := "something_else";
     FC.args := {| FC.json_graph := None |};
     FC.id := id |}.

Definition twoGraphs : ToolCall :=
  {| functionCalls := [graphCall "A" "1"; graphCall "B" "2"] |}.

Definition twoUnknown : ToolCall :=
  {| functionCalls := [otherCall "7"; otherCall "8"] |}.

End Props.

(** ** The chat view, [src/components/chat/ChatBubbles.tsx] *)

Module Chat.

(** One [message-group] element: its [key], and the text of its user and
    of its model bubble when the group has one. *)
Record MessageGroup := {
  key : nat;
  user : option string;
  ai : option string
}.

(** [xs[i] && <bubble>{xs[i]}</bubble>]: nothing is rendered when the index
    is out of range ([undefined]) or the entry is the empty string. *)
Definition bubble (xs : list string) (i : nat) : option string :=
  match nth_error xs i with
  | Some s => if JS.truthy s then Some s else None
  | None => None
  end.

(** The component, reading [textResponses] and [userMessages] from the
    context of the hook. *)
Definition ChatBubbles (ctx : LiveAPI.State) : list MessageGroup :=
  let textResponses := LiveAPI.textResponses ctx in
  let userMessages := LiveAPI.userMessages ctx in
  map (fun i =>
         {| key := i;
            user := bubble userMessages i;
            ai := bubble textResponses i |})
      (seq 0 (Nat.max (List.length userMessages) (List.length textResponses))).

Definition shown (o : option string) : list string :=
  match o with
  | Some s => [s]
  | None => []
  end.

(** The user bubbles, and the model bubbles, from top to bottom. *)
Definition userBubbles (groups : list MessageGroup) : list string :=
  flat_map (fun g => shown (user g)) groups.

Definition aiBubbles (groups : list MessageGroup) : list string :=
  flat_map (fun g => shown (ai g)) groups.

End Chat.

(** ** Runs of the hook and of the tool-call handler *)

Module Session.

Import LiveAPI.

(** The calls made on the client and on the streamer along a sequence of
    actions, in program order. *)
Fixpoint trace (acts : list Action) (st : State) : list Effect :=
  match acts with
  | [] => []
  | a :: rest => (effects (step a st) ++ trace rest (next (step a st)))%list
  end.

Definition isAggregation (a : Action) : bool :=
  match a with
  | ContentEv _ | TurnComplete => true
  | _ => false
  end.

Definition isTurnComplete (a : Action) : bool :=
  match a with
  | TurnComplete => true
  | _ => false
  end.

Definition isClientContentEv (a : Action) : bool :=
  match a with
  | ClientContentEv _ => true
  | _ => false
  end.

Definition isStreamerReady (a : Action) : bool :=
  match a with
  | StreamerReady => true
  | _ => false
  end.

Definition isStreamerCall (e : Effect) : bool :=
  match e with
  | StreamerStop | StreamerAddPCM16 _ => true
  | _ => false
  end.

(** The call on the audio streamer that an event asks for. *)
Definition streamerCallOf (a : Action) : list Effect :=
  match a with
  | Interrupted => [StreamerStop]
  | Audio data => [StreamerAddPCM16 data]
  | _ => []
  end.

(** The events of one model turn: its [content] events, then
    [turncomplete]. *)
Definition turnEvents (contents : list ServerContent) : list Action :=
  (map ContentEv contents ++ [TurnComplete])%list.

(** The entries appended for a list of non-blank turn texts: the first
    computed at the call when React is eager, the others read from the ref
    after its reset. *)
Definition finalized (eagerNow : bool) (texts : list string) : list string :=
  match texts with
  | [] => []
  | t :: rest => (if eagerNow then JS.trim t else "") :: map (fun _ => "") rest
  end.

(** Every [client.connect] call of [es] comes right after a
    [client.disconnect] call. *)
Definition Guarded (es : list Effect) : Prop :=
  forall pre c post,
    es = (pre ++ ClientConnect c :: post)%list ->
    exists pre', pre = (pre' ++ [ClientDisconnect])%list.

(** The Altair component as the client sees it: its state, and whether its
    [toolcall] listener is registered. *)
Record Component := {
  altair : Altair.State;
  listening : bool
}.

Definition mounted : Component :=
  {| altair := Altair.init; listening := true |}.

(** [Object.is] on two values of [jsonString]. *)
Definition sameGraph (a b : option string) : bool :=
  match a, b with
  | Some x, Some y => String.eqb x y
  | None, None => true
  | _, _ => false
  end.

(** The effect of [Altair.tsx] 121-125.  It runs after a render in which
    [jsonString] changed, and calls [JSON.parse] on a truthy [jsonString]
    (the ref of the embedding element is set from the first render on).
    [parses] tells of a string whether [JSON.parse] returns;
    [embedReturns] is [false] when the effect throws. *)
Definition embedReturns (parses : string -> bool) (before after : option string)
  : bool :=
  if sameGraph before after
  then true
  else
    match after with
    | Some s => if JS.truthy s then parses s else true
    | None => true
    end.

(** One [toolcall] event.  It is handled when the listener is registered.
    An error thrown by the effect in the render that follows unmounts the
    component, whose clean-up removes the listener; the timer that the
    handler armed stays armed. *)
Definition deliver (parses : string -> bool) (toolCall : ToolCall) (c : Component)
  : Component * list Altair.Effect :=
  if listening c
  then
    let '(st1, es) := Altair.onToolCall toolCall (altair c) in
    ({| altair := st1;
        listening :=
          embedReturns parses (Altair.jsonString (altair c)) (Altair.jsonString st1) |},
     es)
  else (c, []).

(** A sequence of [toolcall] events. *)
Fixpoint runToolCalls (parses : string -> bool) (toolCalls : list ToolCall)
    (c : Component) : Component * list Altair.Effect :=
  match toolCalls with
  | [] => (c, [])
  | toolCall :: rest =>
      let '(c1, e1) := deliver parses toolCall c in
      let '(c2, e2) := runToolCalls parses rest c1 in
      (c2, (e1 ++ e2)%list)
  end.

(** The graph that the handler takes from an event, if any, is empty or
    parses. *)
Definition graphParses (parses : string -> bool) (toolCall : ToolCall) : bool :=
  match find Altair.matchesDeclaration (functionCalls toolCall) with
  | Some fc =>
      match FC.json_graph (FC.args fc) with
      | Some g => negb (JS.truthy g) || parses g
      | None => true
      end
  | None => true
  end.


Definition answeredIds (es : list Altair.Effect) : list string :=
  flat_map (fun msg => map FR.id (functionResponses msg))
    (Altair.sendToolResponseCalls es).

(** A [JSON.parse] that accepts the empty object only, and a run of events
    whose one graph it accepts. *)
Definition parsesEmptyObject (s : string) : bool := String.eqb s "{}".

Definition goodGraphThenUnknown : list ToolCall :=
  [ {| functionCalls :=
         [ {| FC.name := "render_altair";
              FC.args := {| FC.json_graph := Some "{}" |};
              FC.id := "1" |};
           {| FC.name := "something_else";
              FC.args := {| FC.json_graph := None |};
              FC.id := "2" |} ] |};
    {| functionCalls :=
         [ {| FC.name := "something_else";
              FC.args := {| FC.json_graph := None |};
              FC.id := "7" |} ] |} ].

End Session.

(** ** Facts about [trim] *)

Section TrimFacts.

Import JS.

Lemma truthy_false_iff (s : string) : truthy s = false <-> s = "".
Proof.
  destruct s; simpl; split; intro H; try reflexivity; discriminate.
Qed.

Lemma truthy_true_iff (s : string) : truthy s = true <-> s <> "".
Proof.
  destruct s; simpl; split; intro H; congruence.
Qed.

Lemma app_empty_r (s : string) : s ++ "" = s.
Proof.
  induction s as [|c s IH]; simpl; [reflexivity | now rewrite IH].
Qed.

Lemma app_assoc_s (a b c : string) : (a ++ b) ++ c = a ++ (b ++ c).
Proof.
  induction a as [|x a IH]; simpl; [reflexivity | now rewrite IH].
Qed.

Lemma blank_app (a b : string) : blank (a ++ b) = blank a && blank b.
Proof.
  induction a as [|c a IH]; simpl; [reflexivity |].
  rewrite IH. now rewrite andb_assoc.
Qed.

Lemma trimStart_blank (s : string) : trimStart s = "" <-> blank s = true.
Proof.
  induction s as [|c s IH]; simpl.
  - split; reflexivity.
  - destruct (isWhiteSpace c); simpl.
    + exact IH.
    + split; discriminate.
Qed.

Lemma trimEnd_blank (s : string) : trimEnd s = "" <-> blank s = true.
Proof.
  induction s as [|c s IH]; simpl.
  - split; reflexivity.
  - destruct (trimEnd s) as [|d t] eqn:E.
    + destruct (isWhiteSpace c); simpl.
      * split; intros _; [now apply IH | reflexivity].
      * split; discriminate.
    + split; [discriminate |].
      intro H. apply andb_true_iff in H as [_ H].
      apply IH in H. discriminate.
Qed.

Lemma blank_trimStart (s : string) : blank (trimStart s) = blank s.
Proof.
  induction s as [|c s IH]; simpl; [reflexivity |].
  destruct (isWhiteSpace c) eqn:E; simpl.
  - exact IH.
  - now rewrite E.
Qed.

Lemma trim_blank (s : string) : trim s = "" <-> blank s = true.
Proof.
  unfold trim. rewrite trimEnd_blank, blank_trimStart. reflexivity.
Qed.

Lemma truthy_trim (s : string) : truthy (trim s) = negb (blank s).
Proof.
  destruct (blank s) eqn:B; simpl.
  - apply truthy_false_iff. now apply trim_blank.
  - apply truthy_true_iff. intro H. apply trim_blank in H. congruence.
Qed.

Lemma headOk_trimStart (s : string) : headOk (trimStart s) = true.
Proof.
  induction s as [|c s IH]; simpl; [reflexivity |].
  destruct (isWhiteSpace c) eqn:E; simpl; [exact IH | now rewrite E].
Qed.

Lemma trimStart_headOk (s : string) : headOk s = true -> trimStart s = s.
Proof.
  destruct s as [|c s]; simpl; [reflexivity |].
  destruct (isWhiteSpace c); [discriminate | reflexivity].
Qed.

Lemma headOk_trimEnd (s : string) : headOk s = true -> headOk (trimEnd s) = true.
Proof.
  destruct s as [|c s]; simpl; [reflexivity |].
  intro H. destruct (trimEnd s); simpl.
  - destruct (isWhiteSpace c) eqn:W; simpl; [discriminate | now rewrite W].
  - exact H.
Qed.

Lemma trimEnd_idem (s : string) : trimEnd (trimEnd s) = trimEnd s.
Proof.
  induction s as [|c s IH]; simpl; [reflexivity |].
  destruct (trimEnd s) as [|d t] eqn:E.
  - destruct (isWhiteSpace c) eqn:W; simpl; [reflexivity | now rewrite W].
  - change (trimEnd (String c (String d t))) with
      (match trimEnd (String d t) with
       | EmptyString => if isWhiteSpace c then EmptyString else String c EmptyString
       | u => String c u
       end).
    rewrite IH. reflexivity.
Qed.

Lemma trim_idem (s : string) : trim (trim s) = trim s.
Proof.
  unfold trim.
  rewrite (trimStart_headOk (trimEnd (trimStart s))).
  - apply trimEnd_idem.
  - apply headOk_trimEnd, headOk_trimStart.
Qed.

Lemma blank_empty_or (a b : string) :
  blank (a ++ b) = true -> blank a = true /\ blank b = true.
Proof.
  rewrite blank_app. apply andb_true_iff.
Qed.

End TrimFacts.

(** ** Facts about [join] *)

Section JoinFacts.

Import JS.

Lemma join_cons (sep x : string) (xs : list string) :
  xs <> [] -> join sep (x :: xs) = x ++ sep ++ join sep xs.
Proof.
  destruct xs as [|y ys]; [congruence | reflexivity].
Qed.

Lemma join_app (sep : string) (xs ys : list string) :
  xs <> [] -> ys <> [] ->
  join sep (xs ++ ys)%list = join sep xs ++ sep ++ join sep ys.
Proof.
  induction xs as [|x xs IH]; intros Hx Hy; [congruence |].
  destruct xs as [|x' xs].
  - simpl app. now rewrite join_cons.
  - change ((x :: x' :: xs) ++ ys)%list with (x :: ((x' :: xs) ++ ys))%list.
    rewrite join_cons by (simpl; discriminate).
    rewrite IH by first [assumption | discriminate].
    rewrite (join_cons sep x (x' :: xs)) by discriminate.
    now rewrite !app_assoc_s.
Qed.

(** Joining the joins of non-empty groups is joining all their elements. *)
Lemma join_join (sep : string) (xss : list (list string)) :
  Forall (fun xs => xs <> []) xss ->
  join sep (map (join sep) xss) = join sep (List.concat xss).
Proof.
  induction xss as [|xs xss IH]; intro H; [reflexivity |].
  inversion H as [|? ? Hxs Hrest]; subst.
  destruct xss as [|ys xss].
  - simpl. now rewrite List.app_nil_r.
  - change (map (join sep) (xs :: ys :: xss))
      with (join sep xs :: map (join sep) (ys :: xss)).
    rewrite join_cons by (simpl; discriminate).
    rewrite IH by assumption.
    change (List.concat (xs :: ys :: xss))
      with (xs ++ List.concat (ys :: xss))%list.
    rewrite join_app; [reflexivity | assumption |].
    inversion Hrest as [|? ? Hys _]; subst.
    simpl. destruct ys; [congruence | discriminate].
Qed.

End JoinFacts.

(** ** Facts about the handlers *)

Section HandlerFacts.

Import JS LiveAPI Props.

Lemma setCurrentResponse_same (st : State) :
  setCurrentResponse (currentResponse st) st = st.
Proof.
  destruct st; reflexivity.
Qed.

Lemma chunk_ok (content : ServerContent) : AccOk (chunk content).
Proof.
  unfold AccOk, chunk.
  destruct (blank (eventText content)) eqn:B; [reflexivity | congruence].
Qed.

Lemma AccOk_app (a b : string) : AccOk a -> AccOk b -> AccOk (a ++ b).
Proof.
  unfold AccOk. intros Ha Hb H.
  apply blank_empty_or in H as [Ba Bb].
  now rewrite (Ha Ba), (Hb Bb).
Qed.

Lemma streamText_ok (contents : list ServerContent) : AccOk (streamText contents).
Proof.
  induction contents as [|c cs IH]; simpl.
  - intros _. reflexivity.
  - apply AccOk_app; [apply chunk_ok | exact IH].
Qed.

(** A [content] event appends its chunk to the accumulator and changes
    nothing else. *)
Lemma onServerContent_eq (content : ServerContent) (st : State) :
  onServerContent content st =
  setCurrentResponse (currentResponse st ++ chunk content) st.
Proof.
  unfold onServerContent, chunk, eventText, Spec.fragmentsOfContent, joinedText,
    Spec.fragmentsOfParts.
  destruct (modelTurn content) as [mt|]; simpl;
    [destruct (mtParts mt) as [ps|]; simpl |];
    try (rewrite app_empty_r; symmetry; apply setCurrentResponse_same).
  rewrite truthy_trim.
  destruct (blank _); simpl; [| reflexivity].
  rewrite app_empty_r; symmetry; apply setCurrentResponse_same.
Qed.

Lemma contents_eq (contents : list ServerContent) (st : State) :
  run (map ContentEv contents) st =
  setCurrentResponse (currentResponse st ++ streamText contents) st.
Proof.
  revert st. induction contents as [|c cs IH]; intro st; simpl.
  - rewrite app_empty_r. symmetry. apply setCurrentResponse_same.
  - unfold run in IH. rewrite IH, onServerContent_eq. simpl.
    now rewrite app_assoc_s.
Qed.

Lemma run_app (xs ys : list Action) (st : State) :
  run (xs ++ ys)%list st = run ys (run xs st).
Proof.
  unfold run. apply fold_left_app.
Qed.

(** The turn-completion handler, case by case. *)
Lemma onTurnComplete_blank (st : State) :
  blank (currentResponse st) = true -> onTurnComplete st = st.
Proof.
  intro B. unfold onTurnComplete, onTurnCompleteCall. now rewrite truthy_trim, B.
Qed.

(** The entry appended is the trimmed accumulator when React runs the
    updater at the call, and the trim of the ref after its reset, the empty
    string, when React runs it at the render. *)
Lemma onTurnComplete_text (st : State) :
  blank (currentResponse st) = false ->
  onTurnComplete st =
  setEager false
    (setTextResponses
       (fun prev =>
          (prev ++ [if eager st then trim (currentResponse st) else ""])%list)
       (setCurrentResponse "" st)).
Proof.
  intro B. unfold onTurnComplete, onTurnCompleteCall. rewrite truthy_trim, B.
  simpl. destruct (eager st); reflexivity.
Qed.

(** The fields that a [turncomplete] event never touches. *)
Lemma onTurnComplete_frame (st : State) :
  connected (onTurnComplete st) = connected st
  /\ config (onTurnComplete st) = config st
  /\ volume (onTurnComplete st) = volume st
  /\ userMessages (onTurnComplete st) = userMessages st
  /\ audioStreamer (onTurnComplete st) = audioStreamer st.
Proof.
  destruct (blank (currentResponse st)) eqn:B.
  - rewrite onTurnComplete_blank by exact B. repeat split.
  - rewrite onTurnComplete_text by exact B. repeat split.
Qed.

Lemma onTurnComplete_clears (st : State) :
  AccOk (currentResponse st) -> currentResponse (onTurnComplete st) = "".
Proof.
  intro Ok. destruct (blank (currentResponse st)) eqn:B.
  - rewrite onTurnComplete_blank by assumption. now apply Ok.
  - now rewrite onTurnComplete_text.
Qed.

Lemma step_AccOk (a : Action) (st : State) :
  AccOk (currentResponse st) -> AccOk (currentResponse (next (step a st))).
Proof.
  intro Ok. destruct a; simpl; try assumption.
  - rewrite onServerContent_eq. simpl. apply AccOk_app; [assumption | apply chunk_ok].
  - rewrite onTurnComplete_clears by assumption. intros _. reflexivity.
  - unfold onClientContent.
    destruct (clientContent message) as [cc|]; [| assumption].
    destruct (turns cc) as [ts|]; [| assumption].
    destruct (truthy _); assumption.
  - unfold connect. destruct (config st); [destruct settled |]; assumption.
Qed.

Lemma run_AccOk (acts : list Action) (st : State) :
  AccOk (currentResponse st) -> AccOk (currentResponse (run acts st)).
Proof.
  revert st. induction acts as [|a acts IH]; intros st Ok; [assumption |].
  apply (IH (next (step a st))). now apply step_AccOk.
Qed.

Lemma init_AccOk : AccOk (currentResponse init).
Proof.
  intros _. reflexivity.
Qed.

End HandlerFacts.

(** ** Aggregation of model turns *)

Section ModelTurns.

Import JS LiveAPI Props.

(** The scenario of the specification: [content("Hello")],
    [content(" world")], [turncomplete]. *)
Example scenario_hello_world :
  textResponses (run (map ContentEv helloWorldSpaced ++ [TurnComplete])%list init)
  = ["Hello world"].
Proof. reflexivity. Qed.

(** C1, as stated, fails: the texts of two [content] events are put one
    after the other with nothing in between, so [content("Hello")],
    [content("world")], [turncomplete] appends ["Helloworld"], while the
    single-space-joined text of the fragments is ["Hello world"]. *)
Lemma turn_text_not_space_joined :
  textResponses (run (map ContentEv helloWorldTight ++ [TurnComplete])%list init)
    = ["Helloworld"]
  /\ Spec.turnText helloWorldTight = "Hello world"
  /\ textResponses (run (map ContentEv helloWorldTight ++ [TurnComplete])%list init)
     <> (textResponses init ++ [Spec.turnText helloWorldTight])%list.
Proof.
  repeat split; try reflexivity.
  vm_compute. discriminate.
Qed.

(** C1, amended: after a sequence of [content] events and one
    [turncomplete], starting from an empty accumulator, the accumulator is
    empty again; nothing is appended to [textResponses] when the stream
    text is white space only; and otherwise, when React runs the updater at
    the call (as it does for the first state update after the hook
    mounts), the entry appended is the trim of the stream text: within an
    event the fragments are joined by one space, an event whose joined
    text is white space only adds nothing, and the events' texts follow
    each other with nothing in between.  What is appended when React
    defers the updater is not part of this statement. *)
Theorem turncomplete_appends_stream_text
    (contents : list ServerContent) (st : State) :
  currentResponse st = "" ->
  let st' := run (map ContentEv contents ++ [TurnComplete])%list st in
  currentResponse st' = ""
  /\ (blank (streamText contents) = true ->
      textResponses st' = textResponses st)
  /\ (blank (streamText contents) = false ->
      eager st = true ->
      textResponses st' = (textResponses st ++ [trim (streamText contents)])%list).
Proof.
  intros E st'. subst st'.
  rewrite run_app, contents_eq, E. simpl.
  set (acc := streamText contents).
  assert (Ok : AccOk acc) by apply streamText_ok.
  split; [now apply onTurnComplete_clears |].
  split; intro B.
  - now rewrite onTurnComplete_blank.
  - intro Eg. rewrite onTurnComplete_text by exact B. simpl. now rewrite Eg.
Qed.

Lemma turncomplete_appends_stream_text_witness :
  currentResponse init = ""
  /\ currentResponse
       (run (map ContentEv helloWorldSpaced ++ [TurnComplete])%list init)
     = ""
  /\ textResponses
       (run (map ContentEv helloWorldSpaced ++ [TurnComplete])%list init)
     = ["Hello world"].
Proof.
  split; [reflexivity |].
  pose proof (turncomplete_appends_stream_text helloWorldSpaced init eq_refl)
    as [Acc [_ Text]].
  split; [exact Acc | exact (Text eq_refl eq_refl)].
Defined.

(** C6: a [turncomplete] event that arrives when the accumulator is empty
    after trimming appends nothing to [textResponses] (same entries, same
    length) and raises no error. *)
Theorem turncomplete_blank_appends_nothing (st : State) :
  trim (currentResponse st) = "" ->
  textResponses (next (step TurnComplete st)) = textResponses st
  /\ List.length (textResponses (next (step TurnComplete st)))
     = List.length (textResponses st)
  /\ thrown (step TurnComplete st) = None.
Proof.
  intro T. apply trim_blank in T. simpl.
  rewrite onTurnComplete_blank by exact T. auto.
Qed.

Lemma turncomplete_blank_appends_nothing_witness :
  trim (currentResponse (withAccumulator "  ")) = ""
  /\ textResponses (next (step TurnComplete (withAccumulator "  ")))
     = textResponses (withAccumulator "  ")
  /\ List.length (textResponses (next (step TurnComplete (withAccumulator "  "))))
     = List.length (textResponses (withAccumulator "  "))
  /\ thrown (step TurnComplete (withAccumulator "  ")) = None.
Proof.
  split; [reflexivity |].
  apply (turncomplete_blank_appends_nothing (withAccumulator "  ")).
  reflexivity.
Defined.

(** The handler alone, on an accumulator of white space only, changes
    nothing; such an accumulator is however never produced, see below. *)
Lemma onTurnComplete_keeps_blank :
  onTurnComplete (withAccumulator " ") = withAccumulator " ".
Proof. reflexivity. Qed.

(** C7: after every [turncomplete] event the accumulator is the empty
    string.  In every state the hook reaches the accumulator is either empty
    or holds a character that is not white space (a [content] event adds
    text only when that text is not white space only), so the guard of the
    handler skips the reset only when there is nothing to reset. *)
Theorem turncomplete_leaves_accumulator_empty (acts : list Action) :
  let st := run acts init in
  (currentResponse st = "" \/ blank (currentResponse st) = false)
  /\ currentResponse (next (step TurnComplete st)) = ""
  /\ currentResponse (run (acts ++ [TurnComplete])%list init) = "".
Proof.
  intro st.
  assert (Ok : AccOk (currentResponse st)) by (apply run_AccOk, init_AccOk).
  split.
  { destruct (blank (currentResponse st)) eqn:B; [left; now apply Ok | now right]. }
  split.
  - simpl. now apply onTurnComplete_clears.
  - rewrite run_app. simpl. now apply onTurnComplete_clears.
Qed.

End ModelTurns.

(** ** User turns *)

Section UserTurns.

Import JS LiveAPI Props.

(** C4, as stated, fails: the entry appended to [userMessages] is the
    joined text as it is, not its trim.  A turn with the one part [" Hi "]
    appends [" Hi "], while the trimmed text is ["Hi"]. *)
Lemma user_message_not_trimmed :
  userMessages (next (step (ClientContentEv (clientContentOf paddedHi)) init))
    = [" Hi "]
  /\ Spec.userText paddedHi = "Hi"
  /\ userMessages (next (step (ClientContentEv (clientContentOf paddedHi)) init))
     <> (userMessages init ++ [Spec.userText paddedHi])%list.
Proof.
  repeat split; try reflexivity.
  vm_compute. discriminate.
Qed.

(** C4, amended: a [clientContent] event carrying turns makes
    [userMessages] grow by exactly one entry, equal to the text fragments
    joined by one space within each turn and the turns' texts joined by one
    space, not trimmed; or by no entry when that text is empty after
    trimming. *)
Theorem clientContent_appends_untrimmed_text (ts : list Content) (st : State) :
  let st' := next (step (ClientContentEv (clientContentOf ts)) st) in
  userMessages st' =
    (if truthy (trim (turnsText ts))
     then (userMessages st ++ [turnsText ts])%list
     else userMessages st)
  /\ List.length (userMessages st') =
     List.length (userMessages st) + (if truthy (trim (turnsText ts)) then 1 else 0).
Proof.
  simpl. unfold onClientContent, turnsText, joinedText, Spec.fragmentsOfParts.
  simpl.
  destruct (truthy _); simpl.
  - split; [reflexivity |]. now rewrite length_app.
  - split; [reflexivity |]. now rewrite Nat.add_0_r.
Qed.

(** When every turn carries some text, the trim of the appended text is the
    text the specification describes; a turn without text adds a second
    space between its neighbours. *)
Lemma turnsText_trim (ts : list Content) :
  Forall (fun turn => Spec.fragmentsOfParts (parts turn) <> []) ts ->
  trim (turnsText ts) = Spec.userText ts.
Proof.
  intro H. unfold turnsText, Spec.userText.
  rewrite flat_map_concat_map.
  rewrite <- join_join.
  - now rewrite map_map.
  - apply Forall_map. exact H.
Qed.

Example empty_turn_doubles_space :
  userMessages
    (next (step (ClientContentEv (clientContentOf [turnOf ["a"]; turnOf []; turnOf ["b"]])) init))
  = ["a  b"].
Proof. reflexivity. Qed.

End UserTurns.

(** ** Connection life cycle *)

Section Connection.

Import JS LiveAPI Props.

Lemma step_keeps_config (a : Action) (st : State) :
  isSetConfig a = false -> config (next (step a st)) = config st.
Proof.
  intro H. destruct a; simpl; try reflexivity; try discriminate.
  - unfold onServerContent.
    destruct (modelTurn content) as [mt|]; [| reflexivity].
    destruct (mtParts mt) as [ps|]; [| reflexivity].
    destruct (truthy _); reflexivity.
  - apply onTurnComplete_frame.
  - unfold onClientContent.
    destruct (clientContent message) as [cc|]; [| reflexivity].
    destruct (turns cc) as [ts|]; [| reflexivity].
    destruct (truthy _); reflexivity.
  - unfold connect. destruct (config st) eqn:E; [destruct settled |]; simpl;
      now rewrite ?E.
Qed.

Lemma run_keeps_config (acts : list Action) (st : State) :
  forallb (fun a => negb (isSetConfig a)) acts = true ->
  config (run acts st) = config st.
Proof.
  revert st. induction acts as [|a acts IH]; intros st H; [reflexivity |].
  simpl in H. apply andb_true_iff in H as [Ha Hrest].
  apply negb_true_iff in Ha.
  change (run (a :: acts) st) with (run acts (next (step a st))).
  rewrite IH by assumption. now apply step_keeps_config.
Qed.

(** C3, as stated, fails: the hook starts with a default configuration, so
    [connect()] before any [setConfig()] throws nothing of its own and does
    call [client.connect]. *)
Lemma connect_without_setConfig_connects :
  thrown (connect Resolved init) = None
  /\ effects (connect Resolved init) = [ClientDisconnect; ClientConnect defaultConfig]
  /\ connected (next (connect Resolved init)) = true
  /\ ~ (thrown (connect Resolved init) = Some "config has not been set"
        /\ effects (connect Resolved init) = []).
Proof.
  repeat split. intros [H _]. discriminate.
Qed.

(** C3, amended: [connect()] fails with "config has not been set", without
    any call on the client, exactly when the configuration is a falsy
    value.  Without a prior [setConfig()] the configuration is the default
    one (model "models/gemini-2.0-flash-exp"): [connect()] then calls
    [client.disconnect()] and [client.connect] with that default, and fails
    only if this connection attempt is rejected. *)
Theorem connect_config_guard :
  (forall (st : State) (settled : Settled),
      (thrown (connect settled st) = Some "config has not been set"
       /\ effects (connect settled st) = [])
      <-> config st = None)
  /\ (forall (acts : list Action) (settled : Settled),
        forallb (fun a => negb (isSetConfig a)) acts = true ->
        let o := connect settled (run acts init) in
        effects o = [ClientDisconnect; ClientConnect defaultConfig]
        /\ thrown o = match settled with
                      | Resolved => None
                      | Rejected reason => Some reason
                      end).
Proof.
  split.
  - intros st settled. unfold connect.
    destruct (config st) as [c|]; [destruct settled |]; simpl; split;
      try (intros [_ H]; discriminate); try discriminate; auto.
  - intros acts settled H o. subst o. unfold connect.
    rewrite run_keeps_config by assumption. simpl.
    destruct settled; auto.
Qed.

Lemma connect_config_guard_witness :
  forallb (fun a => negb (isSetConfig a)) [ContentEv (contentOf ["Hi"]); Close] = true
  /\ effects (connect Resolved (run [ContentEv (contentOf ["Hi"]); Close] init))
     = [ClientDisconnect; ClientConnect defaultConfig]
  /\ thrown (connect Resolved (run [ContentEv (contentOf ["Hi"]); Close] init)) = None.
Proof.
  split; [reflexivity |].
  exact (proj2 connect_config_guard [ContentEv (contentOf ["Hi"]); Close] Resolved eq_refl).
Defined.

(** C8: from every state, a [close] event sets the connected flag to false
    and leaves [textResponses], [userMessages] and the accumulator as they
    were. *)
Theorem close_keeps_history (st : State) :
  let st' := next (step Close st) in
  connected st' = false
  /\ textResponses st' = textResponses st
  /\ userMessages st' = userMessages st
  /\ currentResponse st' = currentResponse st.
Proof.
  simpl. repeat split.
Qed.

(** C10: from every state, [disconnect()] sets the connected flag to false
    and changes nothing else: [textResponses], [userMessages], [volume],
    the configuration and the accumulator are as before. *)
Theorem disconnect_changes_only_connected (st : State) :
  let st' := next (step Disconnect st) in
  connected st' = false
  /\ textResponses st' = textResponses st
  /\ userMessages st' = userMessages st
  /\ volume st' = volume st
  /\ config st' = config st
  /\ currentResponse st' = currentResponse st
  /\ audioStreamer st' = audioStreamer st.
Proof.
  simpl. repeat split.
Qed.

(** The same once the [close] event that the client emits in answer to
    [client.disconnect()] has been handled. *)
Lemma disconnect_then_close (st : State) :
  let st' := run [Disconnect; Close] st in
  connected st' = false
  /\ textResponses st' = textResponses st
  /\ userMessages st' = userMessages st
  /\ volume st' = volume st
  /\ config st' = config st
  /\ currentResponse st' = currentResponse st.
Proof.
  simpl. repeat split.
Qed.

End Connection.

(** ** The two histories *)

Section Histories.

Import JS LiveAPI Props.

Lemma Extends_refl {A : Type} (l : list A) : Extends l l.
Proof.
  exists []. now rewrite List.app_nil_r.
Qed.

Lemma Extends_snoc {A : Type} (l : list A) (x : A) : Extends l (l ++ [x])%list.
Proof.
  now exists [x].
Qed.

Lemma Extends_trans {A : Type} (l1 l2 l3 : list A) :
  Extends l1 l2 -> Extends l2 l3 -> Extends l1 l3.
Proof.
  intros [k1 E1] [k2 E2]. exists (k1 ++ k2)%list.
  now rewrite E2, E1, List.app_assoc.
Qed.

Lemma truthy_user (s : string) : blank s = false -> trim s <> "".
Proof.
  intros B E. apply trim_blank in E. congruence.
Qed.

(** Every action either leaves both histories alone, or appends one entry
    to one of them; an entry appended to [userMessages] is not white space
    only. *)
Lemma step_histories (a : Action) (st : State) :
  let st' := next (step a st) in
  (textResponses st' = textResponses st
   \/ exists s, textResponses st' = (textResponses st ++ [s])%list)
  /\ (userMessages st' = userMessages st
      \/ exists s, blank s = false
                   /\ userMessages st' = (userMessages st ++ [s])%list).
Proof.
  destruct a; simpl; try (split; left; reflexivity).
  - rewrite onServerContent_eq. split; left; reflexivity.
  - destruct (blank (currentResponse st)) eqn:B.
    + rewrite onTurnComplete_blank by exact B. split; left; reflexivity.
    + rewrite onTurnComplete_text by exact B. simpl.
      split; [right | left; reflexivity]. now eexists.
  - unfold onClientContent.
    destruct (clientContent message) as [cc|]; [| split; left; reflexivity].
    destruct (turns cc) as [ts|]; [| split; left; reflexivity].
    rewrite truthy_trim.
    destruct (blank _) eqn:B; simpl.
    + split; left; reflexivity.
    + split; [left; reflexivity | right].
      eexists; split; [exact B | reflexivity].
  - unfold connect.
    destruct (config st); [destruct settled |]; split; left; reflexivity.
Qed.

Lemma step_extends (a : Action) (st : State) :
  Extends (textResponses st) (textResponses (next (step a st)))
  /\ Extends (userMessages st) (userMessages (next (step a st))).
Proof.
  destruct (step_histories a st) as [[Et | (s & Et)] [Eu | (u & _ & Eu)]];
    rewrite Et, Eu; split; apply Extends_refl || apply Extends_snoc.
Qed.

Lemma step_user_entries (a : Action) (st : State) :
  Forall (fun s => trim s <> "") (userMessages st) ->
  Forall (fun s => trim s <> "") (userMessages (next (step a st))).
Proof.
  intro H.
  destruct (step_histories a st) as [_ [Eu | (u & Bu & Eu)]]; rewrite Eu;
    [exact H |].
  apply Forall_app. split; [exact H |].
  constructor; [| constructor]. exact (truthy_user u Bu).
Qed.

Lemma run_user_entries (acts : list Action) (st : State) :
  Forall (fun s => trim s <> "") (userMessages st) ->
  Forall (fun s => trim s <> "") (userMessages (run acts st)).
Proof.
  revert st. induction acts as [|a acts IH]; intros st H; [assumption |].
  apply (IH (next (step a st))). now apply step_user_entries.
Qed.

Lemma init_TurnsOk : TurnsOk init.
Proof.
  split; constructor.
Qed.

Lemma run_extends (acts : list Action) (st : State) :
  Extends (textResponses st) (textResponses (run acts st))
  /\ Extends (userMessages st) (userMessages (run acts st)).
Proof.
  revert st. induction acts as [|a acts IH]; intro st.
  - split; apply Extends_refl.
  - destruct (step_extends a st) as [T1 U1].
    destruct (IH (next (step a st))) as [T2 U2].
    split; eapply Extends_trans; eassumption.
Qed.

(** C9: the code breaks the invariant.  After [connect()] has resolved, a
    [content] event with the text "Hello" and a [turncomplete] event,
    [textResponses] holds the empty string: the guard of the handler
    passed, but the updater read the ref after its reset.  The invariant
    holds of the first render and fails after this run. *)
Theorem empty_entry_after_connect :
  TurnsOk init
  /\ textResponses (run helloAfterConnect init) = [""]
  /\ ~ TurnsOk (run helloAfterConnect init).
Proof.
  split; [exact init_TurnsOk |].
  split; [reflexivity |].
  intros [H _]. vm_compute in H. inversion H as [|s l [N _] _]. now apply N.
Qed.

(** X19: what every event handler and operation does keep: it only ever
    appends to [textResponses] and to [userMessages], the entries present
    before staying in place and unchanged, and every entry of
    [userMessages] is non-empty after trimming. *)
Theorem histories_append_only (a : Action) (st : State) :
  Forall (fun s => trim s <> "") (userMessages st) ->
  let st' := next (step a st) in
  Forall (fun s => trim s <> "") (userMessages st')
  /\ (exists k, textResponses st' = (textResponses st ++ k)%list)
  /\ (exists k, userMessages st' = (userMessages st ++ k)%list).
Proof.
  intros H st'. split.
  - exact (step_user_entries a st H).
  - exact (step_extends a st).
Qed.

Lemma histories_append_only_witness :
  Forall (fun s => trim s <> "") (userMessages init)
  /\ Forall (fun s => trim s <> "")
       (userMessages (next (step (ClientContentEv (clientContentOf paddedHi)) init)))
  /\ (exists k,
        textResponses (next (step (ClientContentEv (clientContentOf paddedHi)) init))
        = (textResponses init ++ k)%list)
  /\ (exists k,
        userMessages (next (step (ClientContentEv (clientContentOf paddedHi)) init))
        = (userMessages init ++ k)%list).
Proof.
  assert (H : Forall (fun s => trim s <> "") (userMessages init)) by constructor.
  split; [exact H |].
  exact (histories_append_only (ClientContentEv (clientContentOf paddedHi)) init H).
Defined.

End Histories.

(** ** Tool calls *)

Section ToolCalls.

Import Props.

Lemma find_filter {A : Type} (p : A -> bool) (l : list A) :
  find p l = hd_error (filter p l).
Proof.
  induction l as [|x l IH]; simpl; [reflexivity |].
  destruct (p x); [reflexivity | exact IH].
Qed.

Lemma handlerCalls_app (xs ys : list Altair.Effect) :
  Altair.handlerCalls (xs ++ ys)%list
  = (Altair.handlerCalls xs ++ Altair.handlerCalls ys)%list.
Proof.
  induction xs as [|[str | cb ms] xs IH]; simpl; [reflexivity | |];
    now rewrite IH.
Qed.

(** The calls of [client.sendToolResponse] that a [toolcall] event leads
    to. *)
Lemma onToolCall_sends (toolCall : ToolCall) (st : Altair.State) :
  Altair.sendToolResponseCalls (snd (Altair.onToolCall toolCall st)) =
  match functionCalls toolCall with
  | [] => []
  | _ :: _ =>
      [ {| functionResponses :=
             map Altair.successResponse (functionCalls toolCall) |} ]
  end.
Proof.
  unfold Altair.onToolCall.
  destruct (find Altair.matchesDeclaration (functionCalls toolCall)) as [fc|];
    simpl; destruct (functionCalls toolCall); reflexivity.
Qed.

(** C2, as stated, fails: a [toolcall] event with two invocations leads to
    one [sendToolResponse] call, not two. *)
Lemma two_invocations_one_sendToolResponse :
  List.length (functionCalls twoGraphs) = 2
  /\ List.length
       (Altair.sendToolResponseCalls (snd (Altair.onToolCall twoGraphs Altair.init)))
     = 1
  /\ List.length
       (Altair.sendToolResponseCalls (snd (Altair.onToolCall twoGraphs Altair.init)))
     <> List.length (functionCalls twoGraphs).
Proof.
  repeat split. vm_compute. discriminate.
Qed.

(** C2, amended: a [toolcall] event with N >= 1 function invocations leads
    to exactly one [sendToolResponse] call (made when the timer armed by the
    handler fires), whose [functionResponses] has exactly N entries; the
    i-th entry carries the [id] of the i-th invocation and the response
    [{output: {success: true}}], whether or not the invocation, or any
    invocation, matches a declared name. *)
Theorem toolcall_sends_one_message (toolCall : ToolCall) (st : Altair.State) :
  functionCalls toolCall <> [] ->
  exists msg,
    Altair.sendToolResponseCalls (snd (Altair.onToolCall toolCall st)) = [msg]
    /\ List.length (functionResponses msg) = List.length (functionCalls toolCall)
    /\ map FR.id (functionResponses msg) = map FC.id (functionCalls toolCall)
    /\ Forall (fun r => FR.response r = {| FR.output := {| FR.success := true |} |})
         (functionResponses msg).
Proof.
  intro N. rewrite onToolCall_sends.
  destruct (functionCalls toolCall) as [|fc fcs] eqn:E; [congruence |].
  eexists. split; [reflexivity |]. cbn [functionResponses].
  generalize (fc :: fcs). intro l.
  split; [apply length_map |].
  split; [now rewrite map_map |].
  apply Forall_map, Forall_forall. reflexivity.
Qed.

Lemma toolcall_sends_one_message_witness :
  functionCalls twoUnknown <> []
  /\ exists msg,
       Altair.sendToolResponseCalls (snd (Altair.onToolCall twoUnknown Altair.init))
       = [msg]
       /\ List.length (functionResponses msg) = List.length (functionCalls twoUnknown)
       /\ map FR.id (functionResponses msg) = map FC.id (functionCalls twoUnknown)
       /\ Forall (fun r => FR.response r = {| FR.output := {| FR.success := true |} |})
            (functionResponses msg).
Proof.
  assert (N : functionCalls twoUnknown <> []) by discriminate.
  split; [exact N |].
  exact (toolcall_sends_one_message twoUnknown Altair.init N).
Defined.

(** A [toolcall] event without invocations arms no timer. *)
Lemma toolcall_empty_sends_nothing (st : Altair.State) :
  Altair.onToolCall {| functionCalls := [] |} st = (st, []).
Proof.
  reflexivity.
Qed.

(** C5, as stated, fails: of two invocations of [render_altair] in one
    event, only the first reaches the handler. *)
Lemma second_match_not_handled :
  Altair.handlerCalls (snd (Altair.onToolCall twoGraphs Altair.init)) = [Some "A"]
  /\ Spec.handlerCalls twoGraphs = [Some "A"; Some "B"]
  /\ Altair.jsonString (fst (Altair.onToolCall twoGraphs Altair.init)) = Some "A"
  /\ Altair.handlerCalls (snd (Altair.onToolCall twoGraphs Altair.init))
     <> Spec.handlerCalls twoGraphs.
Proof.
  repeat split. vm_compute. discriminate.
Qed.

(** C5, amended: for every [toolcall] event, the handler is invoked once,
    with the arguments of the first invocation whose name is
    [render_altair], when there is one, and not at all otherwise; later
    matching invocations of the same event do not reach it. *)
Theorem toolcall_handles_first_match_only (toolCall : ToolCall) (st : Altair.State) :
  Altair.handlerCalls (snd (Altair.onToolCall toolCall st))
    = firstn 1 (Spec.handlerCalls toolCall)
  /\ Altair.jsonString (fst (Altair.onToolCall toolCall st))
     = hd (Altair.jsonString st) (Spec.handlerCalls toolCall).
Proof.
  unfold Altair.onToolCall, Spec.handlerCalls.
  rewrite find_filter.
  destruct (filter Altair.matchesDeclaration (functionCalls toolCall)) as [|fc fcs];
    simpl; rewrite ?handlerCalls_app; simpl.
  - split; [| reflexivity].
    destruct (Nat.eqb _ 0); reflexivity.
  - split; [| reflexivity].
    destruct (Nat.eqb _ 0); reflexivity.
Qed.

End ToolCalls.

(** ** Runs of the hook: what each history depends on *)

Section Runs.

Import JS LiveAPI Props Session.

Lemma run_cons (a : Action) (acts : list Action) (st : State) :
  run (a :: acts) st = run acts (next (step a st)).
Proof.
  reflexivity.
Qed.

(** Events other than [content] and [turncomplete] leave the model-turn
    aggregation alone. *)
Lemma step_other_aggregation (a : Action) (st : State) :
  isAggregation a = false ->
  textResponses (next (step a st)) = textResponses st
  /\ currentResponse (next (step a st)) = currentResponse st.
Proof.
  intro H. destruct a; try discriminate; simpl; try (split; reflexivity).
  - unfold onClientContent.
    destruct (clientContent message) as [cc|]; [| split; reflexivity].
    destruct (turns cc) as [ts|]; [| split; reflexivity].
    destruct (truthy _); split; reflexivity.
  - unfold connect. destruct (config st); [destruct settled |]; split; reflexivity.
Qed.

Lemma step_same_aggregation (a : Action) (s1 s2 : State) :
  isAggregation a = true ->
  List.length (textResponses s1) = List.length (textResponses s2) ->
  currentResponse s1 = currentResponse s2 ->
  List.length (textResponses (next (step a s1)))
    = List.length (textResponses (next (step a s2)))
  /\ currentResponse (next (step a s1)) = currentResponse (next (step a s2)).
Proof.
  intros H Et Ec. destruct a; try discriminate; simpl.
  - rewrite !onServerContent_eq. simpl. now rewrite Et, Ec.
  - destruct (blank (currentResponse s1)) eqn:B.
    + rewrite (onTurnComplete_blank s1) by exact B.
      rewrite (onTurnComplete_blank s2) by (now rewrite <- Ec).
      auto.
    + rewrite (onTurnComplete_text s1) by exact B.
      rewrite (onTurnComplete_text s2) by (now rewrite <- Ec).
      simpl. rewrite !length_app, Et. auto.
Qed.

(** X1: which turns get finalized does not depend on the other events: the
    number of entries of [textResponses] and the pending accumulator after
    a run are those after its [content] and [turncomplete] events alone;
    closing, interruption, audio, user turns, configuration, connecting
    and volume reports, wherever they fall, neither add an entry nor touch
    the accumulator.  (The text of an entry does depend on them, through
    the time at which React runs the updater.) *)
Theorem aggregation_ignores_other_events (acts : list Action) (st : State) :
  List.length (textResponses (run acts st))
    = List.length (textResponses (run (filter isAggregation acts) st))
  /\ currentResponse (run acts st)
     = currentResponse (run (filter isAggregation acts) st).
Proof.
  enough (G : forall s1 s2,
             List.length (textResponses s1) = List.length (textResponses s2) ->
             currentResponse s1 = currentResponse s2 ->
             List.length (textResponses (run acts s1))
               = List.length (textResponses (run (filter isAggregation acts) s2))
             /\ currentResponse (run acts s1)
                = currentResponse (run (filter isAggregation acts) s2))
    by now apply G.
  induction acts as [|a acts IH]; intros s1 s2 Et Ec; [now split |].
  rewrite run_cons. simpl filter.
  destruct (isAggregation a) eqn:A.
  - rewrite run_cons.
    destruct (step_same_aggregation a s1 s2 A Et Ec) as [Et' Ec'].
    now apply IH.
  - destruct (step_other_aggregation a s1 A) as [Et' Ec'].
    apply IH; congruence.
Qed.

Lemma step_other_user (a : Action) (st : State) :
  isClientContentEv a = false ->
  userMessages (next (step a st)) = userMessages st.
Proof.
  intro H. destruct a; try discriminate; simpl; try reflexivity.
  - now rewrite onServerContent_eq.
  - apply onTurnComplete_frame.
  - unfold connect. destruct (config st); [destruct settled |]; reflexivity.
Qed.

Lemma step_same_user (a : Action) (s1 s2 : State) :
  isClientContentEv a = true ->
  userMessages s1 = userMessages s2 ->
  userMessages (next (step a s1)) = userMessages (next (step a s2)).
Proof.
  intros H E. destruct a; try discriminate; simpl.
  unfold onClientContent.
  destruct (clientContent message) as [cc|]; [| exact E].
  destruct (turns cc) as [ts|]; [| exact E].
  destruct (truthy _); simpl; [now rewrite E | exact E].
Qed.

(** X2: the user turns after a run are those of its [clientContent] events
    alone, in arrival order; they do not depend on the model-turn
    aggregation nor on any other event. *)
Theorem user_turns_ignore_other_events (acts : list Action) (st : State) :
  userMessages (run acts st)
  = userMessages (run (filter isClientContentEv acts) st).
Proof.
  enough (G : forall s1 s2,
             userMessages s1 = userMessages s2 ->
             userMessages (run acts s1)
             = userMessages (run (filter isClientContentEv acts) s2))
    by now apply G.
  induction acts as [|a acts IH]; intros s1 s2 E; [exact E |].
  rewrite run_cons. simpl filter.
  destruct (isClientContentEv a) eqn:A.
  - rewrite run_cons. apply IH. now apply step_same_user.
  - apply IH. now rewrite step_other_user.
Qed.

End Runs.

(** ** Several turns in a row *)

Section Turns.

Import JS LiveAPI Props Session.

Lemma turn_fields (contents : list ServerContent) (st : State) :
  currentResponse st = "" ->
  textResponses (run (turnEvents contents) st) =
    (if blank (streamText contents)
     then textResponses st
     else (textResponses st
           ++ [if eager st then trim (streamText contents) else ""])%list)
  /\ currentResponse (run (turnEvents contents) st) = ""
  /\ eager (run (turnEvents contents) st)
     = (if blank (streamText contents) then eager st else false).
Proof.
  intro E. unfold turnEvents.
  rewrite run_app, contents_eq, E. simpl.
  pose proof (streamText_ok contents) as Ok.
  destruct (blank (streamText contents)) eqn:B.
  - rewrite onTurnComplete_blank by exact B. simpl. auto.
  - rewrite onTurnComplete_text by exact B. simpl. auto.
Qed.

Lemma finalized_deferred (texts : list string) :
  finalized false texts = map (fun _ => "") texts.
Proof.
  destruct texts; reflexivity.
Qed.

(** X3: over any number of model turns, each made of [content] events and
    closed by [turncomplete], one entry is appended per turn whose stream
    text is not white space only, in the order of the turns.  The first of
    these entries is the trim of the stream text of its turn when React
    runs the updater at the call; every later one is the empty string,
    the updater of these turns being run after the reset of the ref: the
    text of the later turns is lost.  The accumulator is empty at the
    end. *)
Theorem turns_finalized_in_order
    (turnsList : list (list ServerContent)) (st : State) :
  currentResponse st = "" ->
  let st' := run (flat_map turnEvents turnsList) st in
  textResponses st' =
    (textResponses st
     ++ finalized (eager st)
          (filter (fun t => negb (blank t)) (map streamText turnsList)))%list
  /\ currentResponse st' = "".
Proof.
  revert st. induction turnsList as [|contents rest IH]; intros st E; simpl.
  - now rewrite List.app_nil_r.
  - rewrite run_app.
    destruct (turn_fields contents st E) as [Et [Ec Eg]].
    destruct (IH (run (turnEvents contents) st) Ec) as [Et' Ec'].
    split; [| exact Ec'].
    rewrite Et', Et, Eg.
    destruct (blank (streamText contents)); simpl; [reflexivity |].
    now rewrite finalized_deferred, <- List.app_assoc.
Qed.

Lemma turns_finalized_in_order_witness :
  currentResponse init = ""
  /\ textResponses
       (run (flat_map turnEvents
               [[contentOf ["Hel"]; contentOf ["lo "]]; [contentOf [" "]];
                [contentOf ["How"; "are you?"]]]) init)
     = ["Hello"; ""].
Proof.
  split; [reflexivity |].
  exact (proj1 (turns_finalized_in_order
                  [[contentOf ["Hel"]; contentOf ["lo "]]; [contentOf [" "]];
                   [contentOf ["How"; "are you?"]]] init eq_refl)).
Defined.

Lemma step_text_growth (a : Action) (st : State) :
  List.length (textResponses (next (step a st)))
  <= List.length (textResponses st) + (if isTurnComplete a then 1 else 0).
Proof.
  destruct (isAggregation a) eqn:A.
  - destruct a; try discriminate; simpl.
    + rewrite onServerContent_eq. simpl. lia.
    + destruct (blank (currentResponse st)) eqn:B.
      * rewrite onTurnComplete_blank by exact B. lia.
      * rewrite onTurnComplete_text by exact B. simpl.
        rewrite length_app. simpl. lia.
  - destruct (step_other_aggregation a st A) as [E _]. rewrite E. lia.
Qed.

Lemma step_user_growth (a : Action) (st : State) :
  List.length (userMessages (next (step a st)))
  <= List.length (userMessages st) + (if isClientContentEv a then 1 else 0).
Proof.
  destruct (isClientContentEv a) eqn:A.
  - destruct a; try discriminate; simpl. unfold onClientContent.
    destruct (clientContent message) as [cc|]; [| lia].
    destruct (turns cc) as [ts|]; [| lia].
    destruct (truthy _); simpl; [| lia].
    rewrite length_app. simpl. lia.
  - rewrite step_other_user by exact A. lia.
Qed.

(** X4: along any run, [textResponses] gains at most one entry per
    [turncomplete] event and none from any other event, and [userMessages]
    gains at most one entry per [clientContent] event and none from any
    other event. *)
Theorem histories_grow_by_event_count (acts : list Action) (st : State) :
  List.length (textResponses (run acts st))
    <= List.length (textResponses st) + List.length (filter isTurnComplete acts)
  /\ List.length (userMessages (run acts st))
     <= List.length (userMessages st) + List.length (filter isClientContentEv acts).
Proof.
  revert st. induction acts as [|a acts IH]; intro st; [simpl; lia |].
  rewrite run_cons. destruct (IH (next (step a st))) as [Ht Hu].
  pose proof (step_text_growth a st) as Gt.
  pose proof (step_user_growth a st) as Gu.
  simpl filter.
  destruct (isTurnComplete a), (isClientContentEv a); simpl List.length; lia.
Qed.

Lemma step_accumulator_grows (a : Action) (st : State) :
  isTurnComplete a = false ->
  textResponses (next (step a st)) = textResponses st
  /\ exists k, currentResponse (next (step a st)) = currentResponse st ++ k.
Proof.
  intro H. destruct (isAggregation a) eqn:A.
  - destruct a; try discriminate. simpl. rewrite onServerContent_eq. simpl.
    split; [reflexivity | now exists (chunk content)].
  - destruct (step_other_aggregation a st A) as [Et Ec].
    split; [exact Et |]. exists "". now rewrite app_empty_r.
Qed.

(** X5: a [content] event never finalizes a turn.  As long as no
    [turncomplete] event arrives, [textResponses] stays as it was and the
    accumulator only grows at its end: text received is never dropped or
    rewritten, whatever else happens in between (an interruption
    included). *)
Theorem nothing_finalized_without_turncomplete (acts : list Action) (st : State) :
  forallb (fun a => negb (isTurnComplete a)) acts = true ->
  textResponses (run acts st) = textResponses st
  /\ exists k, currentResponse (run acts st) = currentResponse st ++ k.
Proof.
  revert st. induction acts as [|a acts IH]; intros st H.
  - split; [reflexivity |]. exists "". simpl. now rewrite app_empty_r.
  - simpl in H. apply andb_true_iff in H as [Ha Hrest].
    apply negb_true_iff in Ha. rewrite run_cons.
    destruct (step_accumulator_grows a st Ha) as [Et [k1 Ec]].
    destruct (IH (next (step a st)) Hrest) as [Et' [k2 Ec']].
    split; [congruence |].
    exists (k1 ++ k2). now rewrite Ec', Ec, app_assoc_s.
Qed.

Lemma nothing_finalized_without_turncomplete_witness :
  forallb (fun a => negb (isTurnComplete a))
    [ContentEv (contentOf ["Hel"]); Interrupted; Close; ContentEv (contentOf ["lo"])]
  = true
  /\ textResponses
       (run [ContentEv (contentOf ["Hel"]); Interrupted; Close;
             ContentEv (contentOf ["lo"])] init)
     = textResponses init
  /\ exists k,
       currentResponse
         (run [ContentEv (contentOf ["Hel"]); Interrupted; Close;
               ContentEv (contentOf ["lo"])] init)
       = currentResponse init ++ k.
Proof.
  split; [reflexivity |].
  exact (nothing_finalized_without_turncomplete
           [ContentEv (contentOf ["Hel"]); Interrupted; Close;
            ContentEv (contentOf ["lo"])] init eq_refl).
Defined.

(** X20: the entry that a [turncomplete] event appends is read when React
    runs the updater.  When React runs it at the call, the entry is the
    trimmed accumulator.  When React defers it, the entry is the trim of
    what the ref holds at the render: the text of the [content] events
    that arrived since the handler returned, or the empty string if none
    did; that text also stays in the accumulator for the next turn. *)
Theorem entry_read_when_updater_runs (late : list ServerContent) (st : State) :
  blank (currentResponse st) = false ->
  let call := onTurnCompleteCall st in
  let st' := renderTextResponses (snd call) (run (map ContentEv late) (fst call)) in
  textResponses st' =
    (textResponses st
     ++ [if eager st then trim (currentResponse st) else trim (streamText late)])%list
  /\ currentResponse st' = streamText late.
Proof.
  intros B call st'. subst call st'.
  unfold onTurnCompleteCall. rewrite truthy_trim, B. cbn [negb fst snd].
  rewrite contents_eq.
  destruct (eager st); simpl; split; reflexivity.
Qed.

Lemma entry_read_when_updater_runs_witness :
  blank (currentResponse (run [Connect Resolved; ContentEv (contentOf ["Hello"])] init))
  = false
  /\ textResponses
       (renderTextResponses
          (snd (onTurnCompleteCall
                  (run [Connect Resolved; ContentEv (contentOf ["Hello"])] init)))
          (run (map ContentEv [contentOf ["Next"]])
             (fst (onTurnCompleteCall
                     (run [Connect Resolved; ContentEv (contentOf ["Hello"])] init)))))
     = ["Next"].
Proof.
  split; [reflexivity |].
  exact (proj1 (entry_read_when_updater_runs [contentOf ["Next"]]
                  (run [Connect Resolved; ContentEv (contentOf ["Hello"])] init)
                  eq_refl)).
Defined.

Lemma app_same_r (a b : string) : a ++ b = a -> b = "".
Proof.
  induction a as [|c a IH]; simpl; intro H; [exact H |].
  injection H as H. now apply IH.
Qed.

(** X6: a [content] event changes the state of the hook exactly when the
    single-space-joined text of its parts holds a character that is not
    white space.  An event without [modelTurn], without [parts], without a
    part carrying text, or with white-space text only is a no-op and not an
    error. *)
Theorem content_noop_iff_blank (content : ServerContent) (st : State) :
  onServerContent content st = st <-> blank (eventText content) = true.
Proof.
  rewrite onServerContent_eq. unfold chunk. split.
  - intro H. destruct (blank (eventText content)) eqn:B; [reflexivity |].
    apply (f_equal currentResponse) in H. simpl in H.
    apply app_same_r in H. rewrite H in B. discriminate.
  - intro B. rewrite B, app_empty_r. apply setCurrentResponse_same.
Qed.

End Turns.

(** ** Connecting, configuring and the calls made on collaborators *)

Section Link.

Import JS LiveAPI Props Session.

Lemma trace_app (xs ys : list Action) (st : State) :
  trace (xs ++ ys)%list st = (trace xs st ++ trace ys (run xs st))%list.
Proof.
  revert st. induction xs as [|a xs IH]; intro st; [reflexivity |].
  simpl. rewrite IH. now rewrite List.app_assoc.
Qed.

Lemma step_connected (a : Action) (st : State) :
  connected (next (step a st)) = true ->
  connected st = true \/ a = Connect Resolved.
Proof.
  destruct a; simpl; try (intro H; now left); try discriminate.
  - rewrite onServerContent_eq. simpl. auto.
  - destruct (onTurnComplete_frame st) as [E _]. rewrite E. auto.
  - unfold onClientContent.
    destruct (clientContent message) as [cc|]; [| auto].
    destruct (turns cc) as [ts|]; [| auto].
    destruct (truthy _); simpl; auto.
  - unfold connect. destruct (config st); [destruct settled |]; simpl; auto.
Qed.

Lemma run_connected (acts : list Action) (st : State) :
  connected (run acts st) = true ->
  connected st = true \/ In (Connect Resolved) acts.
Proof.
  revert st. induction acts as [|a acts IH]; intros st H; [now left |].
  rewrite run_cons in H.
  destruct (IH _ H) as [C | I]; [| right; now right].
  destruct (step_connected a st C) as [C' | E]; [now left |].
  right. left. now symmetry.
Qed.

(** X7: the hook never reports a connection it did not make: if [connected]
    is true after a run from the first render, the run holds a [connect()]
    whose [client.connect] resolved. *)
Theorem connected_only_after_resolved_connect (acts : list Action) :
  connected (run acts init) = true -> In (Connect Resolved) acts.
Proof.
  intro H. destruct (run_connected acts init H) as [C | I]; [discriminate | exact I].
Qed.

Lemma connected_only_after_resolved_connect_witness :
  connected (run [Connect (Rejected "down"); Connect Resolved; Audio []] init) = true
  /\ In (Connect Resolved) [Connect (Rejected "down"); Connect Resolved; Audio []].
Proof.
  split; [reflexivity |].
  exact (connected_only_after_resolved_connect
           [Connect (Rejected "down"); Connect Resolved; Audio []] eq_refl).
Defined.

(** X8: [connect()] hands to [client.connect] the configuration of the most
    recent [setConfig()], whatever was configured before and whatever
    events arrived since; [setConfig()] itself makes no call on the client
    and does not touch the connected flag. *)
Theorem connect_uses_latest_config
    (before after : list Action) (c : LiveConfig) (settled : Settled) (st : State) :
  forallb (fun a => negb (isSetConfig a)) after = true ->
  effects (step (Connect settled) (run (before ++ SetConfig (Some c) :: after)%list st))
    = [ClientDisconnect; ClientConnect c]
  /\ effects (step (SetConfig (Some c)) (run before st)) = []
  /\ connected (next (step (SetConfig (Some c)) (run before st)))
     = connected (run before st).
Proof.
  intro H. split; [| split; reflexivity].
  rewrite run_app, run_cons. simpl step. unfold connect.
  rewrite run_keeps_config by exact H. simpl.
  destruct settled; reflexivity.
Qed.

Lemma connect_uses_latest_config_witness :
  forallb (fun a => negb (isSetConfig a)) [Close; TurnComplete] = true
  /\ effects
       (step (Connect Resolved)
          (run ([SetConfig None; Connect Resolved]
                ++ SetConfig (Some Altair.altairConfig) :: [Close; TurnComplete])%list
             init))
     = [ClientDisconnect; ClientConnect Altair.altairConfig].
Proof.
  split; [reflexivity |].
  exact (proj1 (connect_uses_latest_config
                  [SetConfig None; Connect Resolved] [Close; TurnComplete]
                  Altair.altairConfig Resolved init eq_refl)).
Defined.

Lemma Guarded_nil : Guarded [].
Proof.
  intros pre c post H. destruct pre; discriminate.
Qed.

Lemma Guarded_app (xs ys : list Effect) :
  Guarded xs -> Guarded ys -> Guarded (xs ++ ys)%list.
Proof.
  intros Gx Gy pre c post H.
  apply app_eq_app in H as [l [[E1 E2] | [E1 E2]]].
  - destruct l as [|e l].
    + simpl in E2. rewrite List.app_nil_r in E1. subst xs.
      destruct (Gy [] c post) as [pre' E]; [now rewrite <- E2 |].
      destruct pre'; discriminate.
    + simpl in E2. injection E2 as E2 E3. subst e.
      exact (Gx pre c l E1).
  - destruct (Gy l c post E2) as [pre' E]. subst l.
    exists (xs ++ pre')%list. now rewrite E1, List.app_assoc.
Qed.

Lemma Guarded_step (a : Action) (st : State) : Guarded (effects (step a st)).
Proof.
  assert (G1 : forall e, isStreamerCall e = true \/ e = ClientDisconnect -> Guarded [e]).
  { intros e He pre c post H.
    destruct pre as [|x pre]; simpl in H.
    - injection H as H _. subst e. destruct He; discriminate.
    - injection H as _ H. destruct pre; discriminate. }
  assert (G2 : forall c, Guarded [ClientDisconnect; ClientConnect c]).
  { intros c pre c' post H.
    destruct pre as [|x pre]; simpl in H; [discriminate |].
    injection H as Hx H. subst x.
    destruct pre as [|y pre]; simpl in H.
    - now exists [].
    - injection H as _ H. destruct pre; discriminate. }
  destruct a; simpl; try apply Guarded_nil.
  - destruct (audioStreamer st); [apply G1; now left | apply Guarded_nil].
  - destruct (audioStreamer st); [apply G1; now left | apply Guarded_nil].
  - unfold connect. destruct (config st); [destruct settled |]; simpl;
      try apply G2; apply Guarded_nil.
  - apply G1. now right.
Qed.

(** X9: along any run, every [client.connect] call comes right after a
    [client.disconnect] call: the hook never asks for a second connection
    on top of a live one. *)
Theorem connect_always_after_disconnect (acts : list Action) (st : State) :
  forall pre c post,
    trace acts st = (pre ++ ClientConnect c :: post)%list ->
    exists pre', pre = (pre' ++ [ClientDisconnect])%list.
Proof.
  change (Guarded (trace acts st)).
  revert st. induction acts as [|a acts IH]; intro st.
  - apply Guarded_nil.
  - simpl. apply Guarded_app; [apply Guarded_step | apply IH].
Qed.

Lemma connect_always_after_disconnect_witness :
  trace [Connect Resolved; Audio []; Connect Resolved] init
    = ([ClientDisconnect; ClientConnect defaultConfig; ClientDisconnect]
       ++ ClientConnect defaultConfig :: [])%list
  /\ exists pre',
       [ClientDisconnect; ClientConnect defaultConfig; ClientDisconnect]
       = (pre' ++ [ClientDisconnect])%list.
Proof.
  split; [reflexivity |].
  exact (connect_always_after_disconnect
           [Connect Resolved; Audio []; Connect Resolved] init
           [ClientDisconnect; ClientConnect defaultConfig; ClientDisconnect]
           defaultConfig [] eq_refl).
Defined.

End Link.

(** ** Audio frames and interruptions *)

Section AudioPath.

Import JS LiveAPI Props Session.

Lemma step_keeps_streamer (a : Action) (st : State) :
  audioStreamer st = true -> audioStreamer (next (step a st)) = true.
Proof.
  intro H. destruct a; simpl; try exact H; try reflexivity.
  - now rewrite onServerContent_eq.
  - destruct (onTurnComplete_frame st) as (_ & _ & _ & _ & E). now rewrite E.
  - unfold onClientContent.
    destruct (clientContent message) as [cc|]; [| exact H].
    destruct (turns cc) as [ts|]; [| exact H].
    destruct (truthy _); exact H.
  - unfold connect. destruct (config st); [destruct settled |]; exact H.
Qed.

Lemma run_keeps_streamer (acts : list Action) (st : State) :
  audioStreamer st = true -> audioStreamer (run acts st) = true.
Proof.
  revert st. induction acts as [|a acts IH]; intros st H; [exact H |].
  rewrite run_cons. apply IH. now apply step_keeps_streamer.
Qed.

Lemma step_streamer_calls (a : Action) (st : State) :
  filter isStreamerCall (effects (step a st))
  = if audioStreamer st then streamerCallOf a else [].
Proof.
  destruct a; simpl; try (destruct (audioStreamer st); reflexivity).
  unfold connect.
  destruct (config st); [destruct settled |]; simpl;
    destruct (audioStreamer st); reflexivity.
Qed.

Lemma ready_streamer_calls (acts : list Action) (st : State) :
  audioStreamer st = true ->
  filter isStreamerCall (trace acts st) = flat_map streamerCallOf acts.
Proof.
  revert st. induction acts as [|a acts IH]; intros st H; [reflexivity |].
  simpl. rewrite filter_app, step_streamer_calls, H.
  rewrite IH by (now apply step_keeps_streamer). reflexivity.
Qed.

Lemma step_stays_unready (a : Action) (st : State) :
  audioStreamer st = false -> isStreamerReady a = false ->
  audioStreamer (next (step a st)) = false.
Proof.
  intros H R. destruct a; simpl; try exact H; try discriminate.
  - now rewrite onServerContent_eq.
  - destruct (onTurnComplete_frame st) as (_ & _ & _ & _ & E). now rewrite E.
  - unfold onClientContent.
    destruct (clientContent message) as [cc|]; [| exact H].
    destruct (turns cc) as [ts|]; [| exact H].
    destruct (truthy _); exact H.
  - unfold connect. destruct (config st); [destruct settled |]; exact H.
Qed.

Lemma unready_streamer_calls (acts : list Action) (st : State) :
  audioStreamer st = false ->
  forallb (fun a => negb (isStreamerReady a)) acts = true ->
  filter isStreamerCall (trace acts st) = []
  /\ audioStreamer (run acts st) = false.
Proof.
  revert st. induction acts as [|a acts IH]; intros st H R; [now split |].
  simpl in R. apply andb_true_iff in R as [Ra Rrest].
  apply negb_true_iff in Ra.
  simpl trace. rewrite run_cons, filter_app, step_streamer_calls, H. simpl.
  apply IH; [now apply step_stays_unready | exact Rrest].
Qed.

(** X10: once the audio streamer exists it stays, and from then on the
    calls it receives are exactly the audio frames and the interruptions
    of the run, one call per event in arrival order ([addPCM16] with the
    frame of the event, [stop] for an interruption): no frame is skipped,
    repeated or reordered, and nothing else reaches the streamer. *)
Theorem streamer_gets_every_frame_in_order (acts : list Action) (st : State) :
  audioStreamer st = true ->
  filter isStreamerCall (trace acts st) = flat_map streamerCallOf acts
  /\ audioStreamer (run acts st) = true.
Proof.
  intro H. split; [now apply ready_streamer_calls | now apply run_keeps_streamer].
Qed.

Lemma streamer_gets_every_frame_in_order_witness :
  audioStreamer (setAudioStreamer true init) = true
  /\ filter isStreamerCall
       (trace [Audio [Byte.x01]; Connect Resolved; Interrupted; Audio [Byte.x02]]
          (setAudioStreamer true init))
     = [StreamerAddPCM16 [Byte.x01]; StreamerStop; StreamerAddPCM16 [Byte.x02]].
Proof.
  split; [reflexivity |].
  exact (proj1 (streamer_gets_every_frame_in_order
                  [Audio [Byte.x01]; Connect Resolved; Interrupted; Audio [Byte.x02]]
                  (setAudioStreamer true init) eq_refl)).
Defined.

(** X11: audio frames and interruptions that arrive before the audio
    streamer has been created are dropped without error and are not
    replayed later: the streamer receives the calls for the events that
    follow its creation only. *)
Theorem early_audio_is_dropped (early late : list Action) (st : State) :
  audioStreamer st = false ->
  forallb (fun a => negb (isStreamerReady a)) early = true ->
  filter isStreamerCall (trace (early ++ StreamerReady :: late)%list st)
  = flat_map streamerCallOf late.
Proof.
  intros H R.
  destruct (unready_streamer_calls early st H R) as [E _].
  rewrite trace_app, filter_app, E. simpl.
  now apply ready_streamer_calls.
Qed.

Lemma early_audio_is_dropped_witness :
  audioStreamer init = false
  /\ forallb (fun a => negb (isStreamerReady a)) [Audio [Byte.x01]; Interrupted] = true
  /\ filter isStreamerCall
       (trace ([Audio [Byte.x01]; Interrupted]
               ++ StreamerReady :: [Audio [Byte.x02]])%list init)
     = [StreamerAddPCM16 [Byte.x02]].
Proof.
  split; [reflexivity |]. split; [reflexivity |].
  exact (early_audio_is_dropped
           [Audio [Byte.x01]; Interrupted] [Audio [Byte.x02]] init eq_refl eq_refl).
Defined.

End AudioPath.

(** ** What the chat view shows *)

Section ChatView.

Import JS LiveAPI Props Chat.

Lemma flat_map_map_compose {A B C : Type} (f : B -> list C) (g : A -> B) (l : list A) :
  flat_map f (map g l) = flat_map (fun x => f (g x)) l.
Proof.
  induction l as [|x l IH]; simpl; [reflexivity | now rewrite IH].
Qed.

Lemma flat_map_none {A B : Type} (f : A -> list B) (l : list A) :
  (forall x, f x = []) -> flat_map f l = [].
Proof.
  intro H. induction l as [|x l IH]; simpl; [reflexivity | now rewrite H, IH].
Qed.

(** Reading the bubbles of a history at the indices [0 .. n-1], for [n] at
    least its length, gives its non-empty entries in order. *)
Lemma bubbles_upto (xs : list string) (n : nat) :
  List.length xs <= n ->
  flat_map (fun i => shown (bubble xs i)) (seq 0 n) = filter truthy xs.
Proof.
  revert n. induction xs as [|x xs IH]; intros n H.
  - apply flat_map_none. intro i. unfold bubble. now destruct i.
  - destruct n as [|n]; [simpl in H; lia |].
    simpl in H. apply le_S_n in H.
    change (seq 0 (S n)) with (0 :: seq 1 n).
    rewrite <- seq_shift. simpl flat_map.
    rewrite flat_map_map_compose.
    change (flat_map (fun i => shown (bubble (x :: xs) (S i))) (seq 0 n))
      with (flat_map (fun i => shown (bubble xs i)) (seq 0 n)).
    rewrite IH by exact H.
    unfold bubble at 1. simpl. destruct (truthy x); reflexivity.
Qed.

(** X12: the view renders one group per index up to the longer of the two
    histories, and loses nothing but empty entries: read from top to
    bottom, its user bubbles are the non-empty entries of [userMessages]
    and its model bubbles the non-empty entries of [textResponses], each in
    order and once. *)
Theorem chat_shows_nonempty_entries (ctx : State) :
  List.length (ChatBubbles ctx)
    = Nat.max (List.length (userMessages ctx)) (List.length (textResponses ctx))
  /\ map key (ChatBubbles ctx) = seq 0 (List.length (ChatBubbles ctx))
  /\ userBubbles (ChatBubbles ctx) = filter truthy (userMessages ctx)
  /\ aiBubbles (ChatBubbles ctx) = filter truthy (textResponses ctx).
Proof.
  unfold ChatBubbles, userBubbles, aiBubbles.
  rewrite length_map, length_seq, map_map, !flat_map_map_compose. simpl.
  split; [reflexivity |].
  split; [apply map_id |].
  split; apply bubbles_upto; lia.
Qed.

Lemma filter_all {A : Type} (p : A -> bool) (l : list A) :
  Forall (fun x => p x = true) l -> filter p l = l.
Proof.
  induction 1 as [|x l Hx _ IH]; simpl; [reflexivity | now rewrite Hx, IH].
Qed.

(** X13: the view hides no user turn: for the histories that the hook
    builds (any run from its first render), the user bubbles are exactly
    [userMessages], in order. *)
Theorem chat_shows_every_user_message (acts : list Action) :
  userBubbles (ChatBubbles (run acts init)) = userMessages (run acts init).
Proof.
  assert (H : Forall (fun s => trim s <> "") (userMessages (run acts init)))
    by (apply run_user_entries; constructor).
  unfold ChatBubbles, userBubbles.
  rewrite flat_map_map_compose. simpl.
  rewrite bubbles_upto by lia.
  apply filter_all.
  eapply Forall_impl; [| exact H].
  intros s N. apply truthy_true_iff. intro E. subst s. now apply N.
Qed.

End ChatView.

(** ** Several tool calls in a row *)

Section ToolRuns.

Import Props Session.

Variable parses : string -> bool.

Lemma runToolCalls_cons (toolCall : ToolCall) (rest : list ToolCall) (c : Component) :
  runToolCalls parses (toolCall :: rest) c =
  (fst (runToolCalls parses rest (fst (deliver parses toolCall c))),
   (snd (deliver parses toolCall c)
    ++ snd (runToolCalls parses rest (fst (deliver parses toolCall c))))%list).
Proof.
  simpl. destruct (deliver parses toolCall c) as [c1 e1]. simpl.
  destruct (runToolCalls parses rest c1) as [c2 e2]. reflexivity.
Qed.




Lemma sameGraph_refl (g : option string) : sameGraph g g = true.
Proof.
  destruct g as [s|]; [apply String.eqb_refl | reflexivity].
Qed.

(** The graph that an event leaves: that of its first [render_altair]
    invocation, or the one held before. *)
Lemma onToolCall_graph (toolCall : ToolCall) (st : Altair.State) :
  Altair.jsonString (fst (Altair.onToolCall toolCall st))
  = match find Altair.matchesDeclaration (functionCalls toolCall) with
    | Some fc => FC.json_graph (FC.args fc)
    | None => Altair.jsonString st
    end.
Proof.
  unfold Altair.onToolCall.
  destruct (find Altair.matchesDeclaration (functionCalls toolCall)); reflexivity.
Qed.

(** An event whose graph parses leaves the listener registered. *)
Lemma deliver_listening (toolCall : ToolCall) (c : Component) :
  listening c = true ->
  graphParses parses toolCall = true ->
  listening (fst (deliver parses toolCall c)) = true
  /\ altair (fst (deliver parses toolCall c))
     = fst (Altair.onToolCall toolCall (altair c))
  /\ snd (deliver parses toolCall c) = snd (Altair.onToolCall toolCall (altair c)).
Proof.
  intros L G. unfold deliver. rewrite L.
  pose proof (onToolCall_graph toolCall (altair c)) as E.
  destruct (Altair.onToolCall toolCall (altair c)) as [st1 es]. simpl in *.
  split; [| split; reflexivity].
  unfold embedReturns, graphParses in *. rewrite E.
  destruct (find Altair.matchesDeclaration (functionCalls toolCall)) as [fc|];
    [| now rewrite sameGraph_refl].
  destruct (sameGraph _ _); [reflexivity |].
  destruct (FC.json_graph (FC.args fc)) as [g|]; [| reflexivity].
  destruct (JS.truthy g); [exact G | reflexivity].
Qed.




End ToolRuns.

Section ToolRunsGraph.

Import Props Session.

Variable parses : string -> bool.

Lemma last_cons {A : Type} (x : A) (l : list A) (d : A) :
  last (x :: l) d = last l x.
Proof.
  revert x d. induction l as [|a l IH]; intros x d; [reflexivity |].
  change (last (x :: a :: l) d) with (last (a :: l) d).
  now rewrite (IH a d), (IH a x).
Qed.

Lemma last_app_last {A : Type} (xs ys : list A) (d : A) :
  last (xs ++ ys)%list d = last ys (last xs d).
Proof.
  revert d. induction xs as [|x xs IH]; intro d; [reflexivity |].
  change ((x :: xs) ++ ys)%list with (x :: (xs ++ ys))%list.
  now rewrite !last_cons, IH.
Qed.

(** X15: while the component stays mounted, the graph string it holds
    after a sequence of [toolcall] events is the [json_graph] argument of
    the first [render_altair] invocation of the last event that has one;
    invocations after the first of an event are ignored, and events
    without such an invocation leave the graph of an earlier event in
    place. *)
Theorem graph_is_latest_handled (toolCalls : list ToolCall) (c : Component) :
  listening c = true ->
  forallb (graphParses parses) toolCalls = true ->
  Altair.jsonString (altair (fst (runToolCalls parses toolCalls c)))
  = last (flat_map (fun toolCall => firstn 1 (Spec.handlerCalls toolCall)) toolCalls)
         (Altair.jsonString (altair c)).
Proof.
  revert c. induction toolCalls as [|toolCall rest IH]; intros c L G;
    [reflexivity |].
  simpl in G. apply andb_true_iff in G as [G1 G2].
  destruct (deliver_listening parses toolCall c L G1) as (L1 & A1 & _).
  rewrite runToolCalls_cons. cbn [fst flat_map].
  rewrite (IH _ L1 G2), A1, last_app_last, onToolCall_graph.
  f_equal. unfold Spec.handlerCalls. rewrite find_filter.
  destruct (filter Altair.matchesDeclaration (functionCalls toolCall));
    reflexivity.
Qed.

End ToolRunsGraph.


Lemma graph_is_latest_handled_witness :
  Session.listening Session.mounted = true
  /\ forallb (Session.graphParses Session.parsesEmptyObject)
       Session.goodGraphThenUnknown = true
  /\ Altair.jsonString
       (Session.altair
          (fst (Session.runToolCalls Session.parsesEmptyObject
                  Session.goodGraphThenUnknown Session.mounted)))
     = Some "{}".
Proof.
  split; [reflexivity |]. split; [reflexivity |].
  exact (graph_is_latest_handled Session.parsesEmptyObject
           Session.goodGraphThenUnknown Session.mounted eq_refl eq_refl).
Defined.

(** A graph that [JSON.parse] rejects unmounts the component: the event
    that carried it is answered, the events after it are not. *)
Example rejected_graph_stops_answers :
  Session.answeredIds
    (snd (Session.runToolCalls (fun _ => false)
            [Props.twoGraphs; Props.twoUnknown] Session.mounted))
  = ["1"; "2"].
Proof. reflexivity. Qed.

(** ** Shapes of events under which the code meets the joined text *)

Section JoinedText.

Import JS LiveAPI Props Session.

Lemma snoc_not_same {A : Type} (l : list A) (x : A) : (l ++ [x])%list <> l.
Proof.
  intro H. apply (f_equal (@List.length A)) in H.
  rewrite length_app in H. simpl in H. lia.
Qed.

(** X16: a [clientContent] event changes the state of the hook exactly when
    the joined text of its turns holds a character that is not white space;
    an event without [clientContent] or without [turns] is a no-op, as is
    one with an empty list of turns. *)
Theorem clientContent_noop_iff_blank (ts : list Content) (st : State) :
  (onClientContent (clientContentOf ts) st = st <-> blank (turnsText ts) = true)
  /\ onClientContent {| clientContent := None |} st = st
  /\ onClientContent {| clientContent := Some {| turns := None |} |} st = st
  /\ onClientContent (clientContentOf []) st = st.
Proof.
  split; [| repeat split].
  unfold onClientContent, turnsText, joinedText, Spec.fragmentsOfParts. simpl.
  rewrite truthy_trim.
  destruct (blank _) eqn:B; simpl; split; try reflexivity; try discriminate.
  intro H. apply (f_equal userMessages) in H. simpl in H.
  now apply snoc_not_same in H.
Qed.

(** X17: when every turn of a [clientContent] event carries some text and
    that text is not white space only, the entry appended to
    [userMessages] differs from the single-space join of all the text
    fragments of the event at most by white space at its two ends: its
    trim is that join, trimmed. *)
Theorem user_entry_trims_to_joined_fragments (ts : list Content) (st : State) :
  Forall (fun turn => Spec.fragmentsOfParts (parts turn) <> []) ts ->
  Spec.userText ts <> "" ->
  exists entry,
    userMessages (onClientContent (clientContentOf ts) st)
      = (userMessages st ++ [entry])%list
    /\ trim entry = Spec.userText ts.
Proof.
  intros F N. exists (turnsText ts).
  rewrite <- (turnsText_trim ts F) in N.
  split; [| now apply turnsText_trim].
  unfold onClientContent. simpl.
  change (join " " (map (fun turn => joinedText (parts turn)) ts))
    with (turnsText ts).
  apply truthy_true_iff in N. now rewrite N.
Qed.

Lemma user_entry_trims_to_joined_fragments_witness :
  Forall (fun turn => Spec.fragmentsOfParts (parts turn) <> [])
    [turnOf [" Hi"; "there"]; turnOf ["friend "]]
  /\ Spec.userText [turnOf [" Hi"; "there"]; turnOf ["friend "]] <> ""
  /\ exists entry,
       userMessages
         (onClientContent
            (clientContentOf [turnOf [" Hi"; "there"]; turnOf ["friend "]]) init)
         = (userMessages init ++ [entry])%list
       /\ trim entry = Spec.userText [turnOf [" Hi"; "there"]; turnOf ["friend "]].
Proof.
  assert (F : Forall (fun turn => Spec.fragmentsOfParts (parts turn) <> [])
                [turnOf [" Hi"; "there"]; turnOf ["friend "]])
    by (repeat constructor; discriminate).
  assert (N : Spec.userText [turnOf [" Hi"; "there"]; turnOf ["friend "]] <> "")
    by discriminate.
  split; [exact F |]. split; [exact N |].
  exact (user_entry_trims_to_joined_fragments
           [turnOf [" Hi"; "there"]; turnOf ["friend "]] init F N).
Defined.

(** X18: when React runs the updater at the call (as for the first state
    update after the hook mounts), a model turn delivered in one [content]
    event is finalized as the trimmed single-space join of the text
    fragments of that event; nothing is appended when that text is
    empty. *)
Theorem single_event_turn_is_joined_text (content : ServerContent) (st : State) :
  currentResponse st = "" ->
  eager st = true ->
  textResponses (run (turnEvents [content]) st) =
    (if truthy (Spec.turnText [content])
     then (textResponses st ++ [Spec.turnText [content]])%list
     else textResponses st).
Proof.
  intros E Eg. destruct (turn_fields [content] st E) as [Et _]. rewrite Et, Eg.
  unfold Spec.turnText, streamText. simpl.
  rewrite List.app_nil_r, app_empty_r.
  change (join " " (Spec.fragmentsOfContent content)) with (eventText content).
  rewrite truthy_trim. unfold chunk.
  destruct (blank (eventText content)) eqn:B; simpl; [reflexivity |].
  now rewrite B.
Qed.

Lemma single_event_turn_is_joined_text_witness :
  currentResponse init = ""
  /\ eager init = true
  /\ textResponses (run (turnEvents [contentOf [" Hello"; "world "]]) init)
     = ["Hello world"].
Proof.
  split; [reflexivity |]. split; [reflexivity |].
  exact (single_event_turn_is_joined_text
           (contentOf [" Hello"; "world "]) init eq_refl eq_refl).
Defined.

End JoinedText.
